(** * CleanVisionAI: the cleaning and exploratory-analysis pipeline of app.py

    A shallow embedding of [clean_data], [detect_outliers] and the
    outlier summary of [generate_eda_report] (src/app.py), together with
    the data-processing constants of src/config.py.

    Modelling conventions.
    - A Python [str] is a list of Unicode code points ([N]).
    - A pandas column is either numeric (dtype int64 / float64) or of
      dtype object.  A numeric cell is an exact rational, [None] standing
      for NaN; an object cell is a string, [None] standing for None/NaN.
      Floating-point rounding is not modelled: arithmetic is exact.
    - A DataFrame carries its row labels ([index]) and its labelled
      columns in order; labels may repeat, as pandas allows.
    - Python exceptions are values of [exn]; a call that may raise
      returns a [result].
    - [Series.str.replace] is read with a regular-expression pattern, the
      reading under which the character class of line 39 is a class
      (pandas' default before 2.0).
    - [scipy.stats.zscore] is read as in the scipy releases that go
      with those pandas releases: applied to a Series it returns a
      Series with the same row labels, and an empty array when the
      Series is empty. *)

From Stdlib Require Import List Bool Arith ZArith NArith QArith Qround Qabs.
From Stdlib Require Import String Ascii Lia Permutation Sorted.
From Stdlib Require Import Reals Qreals Lqa Lra.
Import ListNotations.

Local Open Scope Q_scope.

(** ** Python strings *)

Module Py.

Definition char := N.
Definition str := list char.

(** A literal: the code points of an ASCII Rocq string. *)
Definition lit (s : string) : str :=
  List.map N_of_ascii (list_ascii_of_string s).

Definition char_eqb (a b : char) : bool := N.eqb a b.

Fixpoint str_eqb (a b : str) : bool :=
  match a, b with
  | [], [] => true
  | x :: a', y :: b' => char_eqb x y && str_eqb a' b'
  | _, _ => false
  end.

(** Comparison of strings is lexicographic on code points. *)
Fixpoint str_leb (a b : str) : bool :=
  match a, b with
  | [], _ => true
  | _ :: _, [] => false
  | x :: a', y :: b' =>
      if N.ltb x y then true
      else if N.ltb y x then false
      else str_leb a' b'
  end.

Definition in_range (lo hi c : N) : bool := (N.leb lo c && N.leb c hi)%bool.

(** [str.isspace] for one character: the code points whose general
    category is Zs or whose bidirectional class is WS, B or S. *)
Definition isspace (c : char) : bool :=
  (in_range 9 13 c || in_range 28 32 c || N.eqb c 133 || N.eqb c 160
   || N.eqb c 5760 || in_range 8192 8202 c || in_range 8232 8233 c
   || N.eqb c 8239 || N.eqb c 8287 || N.eqb c 12288)%bool.

Fixpoint lstrip (s : str) : str :=
  match s with
  | [] => []
  | c :: s' => if isspace c then lstrip s' else s
  end.

Definition rstrip (s : str) : str := rev (lstrip (rev s)).

(** [str.strip()] with no argument. *)
Definition strip (s : str) : str := rstrip (lstrip s).

Fixpoint is_prefix (p s : str) : bool :=
  match p, s with
  | [], _ => true
  | _ :: _, [] => false
  | x :: p', y :: s' => char_eqb x y && is_prefix p' s'
  end.

(** Left-to-right, non-overlapping replacement of [old] (non-empty);
    [skip] counts the characters of a match still to be consumed. *)
Fixpoint replace_from (old new : str) (skip : nat) (s : str) : str :=
  match s with
  | [] => []
  | c :: s' =>
      match skip with
      | S k => replace_from old new k s'
      | O =>
          if is_prefix old s
          then new ++ replace_from old new (List.length old - 1)%nat s'
          else c :: replace_from old new 0%nat s'
      end
  end.

(** [s.replace(old, new)]. *)
Definition replace (old new s : str) : str :=
  match old with
  | [] => new ++ flat_map (fun c => c :: new) s
  | _ :: _ => replace_from old new 0%nat s
  end.

(** The regular expressions the program uses are single character
    classes. *)
Inductive class_item :=
| Range (lo hi : char)
| Single (c : char).

Definition item_matches (c : char) (i : class_item) : bool :=
  match i with
  | Range lo hi => in_range lo hi c
  | Single d => char_eqb c d
  end.

Inductive regex :=
| Class (items : list class_item)
| NegClass (items : list class_item).

Definition matches (r : regex) (c : char) : bool :=
  match r with
  | Class items => existsb (item_matches c) items
  | NegClass items => negb (existsb (item_matches c) items)
  end.

(** [re.sub(r, repl, s)] for a one-character pattern. *)
Definition re_sub (r : regex) (repl s : str) : str :=
  flat_map (fun c => if matches r c then repl else [c]) s.

(** Exceptions.  The first six are raised by the interpreter or by
    pandas on the paths modelled below ([IndexingError] is
    pandas.errors.IndexingError); the last three are the error kinds
    the specification names, which no statement of the program
    constructs. *)
Inductive exn :=
| AttributeError
| ValueError
| KeyError
| IndexError
| IndexingError
| ZeroDivisionError
| SchemaError
| EmptyDatasetError
| UndefinedStatisticError.

Inductive result (A : Type) :=
| Ok (a : A)
| Raise (e : exn).
Arguments Ok {A} a.
Arguments Raise {A} e.

Definition bind {A B} (r : result A) (k : A -> result B) : result B :=
  match r with
  | Ok a => k a
  | Raise e => Raise e
  end.

(** A [for] loop whose body may raise: the state is threaded through
    the iterations and the first exception aborts the loop. *)
Fixpoint for_each {A S} (body : S -> A -> result S) (xs : list A) (s : S)
  : result S :=
  match xs with
  | [] => Ok s
  | x :: xs' => bind (body s x) (for_each body xs')
  end.

(** A [dict] keyed by strings, in insertion order. *)
Definition dict (V : Type) := list (str * V).

Fixpoint dict_set {V} (k : str) (v : V) (d : dict V) : dict V :=
  match d with
  | [] => [(k, v)]
  | (k', v') :: d' =>
      if str_eqb k' k then (k', v) :: d' else (k', v') :: dict_set k v d'
  end.

Fixpoint dict_get {V} (k : str) (d : dict V) : option V :=
  match d with
  | [] => None
  | (k', v') :: d' => if str_eqb k' k then Some v' else dict_get k d'
  end.


(** [c in s] for a character. *)
Definition contains (c : char) (s : str) : bool := existsb (char_eqb c) s.

(** The text before and after the first occurrence of [sep]. *)
Fixpoint partition (sep : char) (s : str) : option (str * str) :=
  match s with
  | [] => None
  | c :: s' =>
      if char_eqb c sep then Some ([], s')
      else match partition sep s' with
           | Some (a, b) => Some (c :: a, b)
           | None => None
           end
  end.

(** [s.rsplit(sep, 1)] for a one-character separator: the string
    itself when [sep] does not occur, otherwise the text before and the
    text after its last occurrence. *)
Definition rsplit1 (sep : char) (s : str) : list str :=
  match partition sep (rev s) with
  | None => [s]
  | Some (a, b) => [rev b; rev a]
  end.

(** [l[i]] for a non-negative index. *)
Definition list_getitem {A} (l : list A) (i : nat) : result A :=
  match nth_error l i with
  | Some x => Ok x
  | None => Raise IndexError
  end.

(** [str.lower()], character by character.  Python follows the Unicode
    tables; the model gives the lowercase of the ASCII letters and of
    the two other code points whose lowercase holds an ASCII letter
    (U+0130, which becomes i followed by U+0307, and the Kelvin sign
    U+212A, which becomes k), and leaves every other code point in
    place: such a code point lowercases to code points outside ASCII,
    so a comparison of the result with an ASCII string is not
    affected. *)
Definition lower_char (c : char) : str :=
  if in_range 65 90 c then [(c + 32)%N]
  else if N.eqb c 304 then [105; 775]%N
  else if N.eqb c 8490 then [107]%N
  else [c].

Definition lower (s : str) : str := flat_map lower_char s.

End Py.

Notation "x <- r ;; k" := (Py.bind r (fun x => k))
  (at level 61, r at next level, right associativity).

Import Py.

(** ** pandas: columns, frames and the statistics the program calls *)

Module Pandas.

Inductive column :=
| Numeric (vals : list (option Q))
| Object (vals : list (option str)).

Record DataFrame := mkDataFrame {
  index : list nat;
  data : list (str * column)
}.

(** [df.columns] *)
Definition columns (df : DataFrame) : list str := List.map fst (data df).

(** [len(df)] *)
Definition len (df : DataFrame) : nat := List.length (index df).

(** [df.empty]: some axis has length 0. *)
Definition empty (df : DataFrame) : bool :=
  match index df, data df with
  | [], _ => true
  | _, [] => true
  | _, _ => false
  end.

(** [len(df[col])] for one column. *)
Definition column_length (c : column) : nat :=
  match c with
  | Numeric vals => List.length vals
  | Object vals => List.length vals
  end.

(** [s.dropna()] *)
Fixpoint dropna {A} (vals : list (option A)) : list A :=
  match vals with
  | [] => []
  | Some x :: vals' => x :: dropna vals'
  | None :: vals' => dropna vals'
  end.

(** [s.isnull().sum()] *)
Definition isnull_sum {A} (vals : list (option A)) : nat :=
  List.length (List.filter (fun v => match v with None => true | Some _ => false end) vals).

Definition missing_count (c : column) : nat :=
  match c with
  | Numeric vals => isnull_sum vals
  | Object vals => isnull_sum vals
  end.

(** [s.fillna(value)]; filling with NaN changes nothing. *)
Definition fillna {A} (value : option A) (vals : list (option A))
  : list (option A) :=
  List.map (fun v => match v with Some x => Some x | None => value end) vals.

(** *** Sorting *)

Section Sort.
Context {A : Type} (leb : A -> A -> bool).

Fixpoint insert_sorted (x : A) (l : list A) : list A :=
  match l with
  | [] => [x]
  | y :: l' => if leb x y then x :: l else y :: insert_sorted x l'
  end.

Fixpoint sort (l : list A) : list A :=
  match l with
  | [] => []
  | x :: l' => insert_sorted x (sort l')
  end.
End Sort.

(** *** Numeric statistics (NaN skipped) *)

Definition Qsum (xs : list Q) : Q := fold_right Qplus 0 xs.

Definition Qofnat (n : nat) : Q := inject_Z (Z.of_nat n).

(** [s.median()]: the middle of the sorted non-missing values, the mean
    of the two middle ones when their number is even, NaN when there is
    none. *)
Definition median (vals : list (option Q)) : option Q :=
  let xs := sort Qle_bool (dropna vals) in
  let n := List.length xs in
  match n with
  | O => None
  | _ =>
      if Nat.odd n then Some (nth (n / 2)%nat xs 0)
      else Some ((nth (n / 2 - 1)%nat xs 0 + nth (n / 2)%nat xs 0) / 2)
  end.

(** [s.quantile(q)] with linear interpolation: at position
    [(n - 1) * q] of the sorted non-missing values. *)
Definition quantile (q : Q) (vals : list (option Q)) : option Q :=
  let xs := sort Qle_bool (dropna vals) in
  let n := List.length xs in
  match n with
  | O => None
  | _ =>
      let pos := Qofnat (n - 1)%nat * q in
      let lo := Z.to_nat (Qfloor pos) in
      let hi := Nat.min (lo + 1)%nat (n - 1)%nat in
      let frac := pos - inject_Z (Qfloor pos) in
      Some (nth lo xs 0 + (nth hi xs 0 - nth lo xs 0) * frac)
  end.

(** Mean and population variance ([ddof = 0]) as [scipy.stats.zscore]
    computes them; both are NaN for an empty array. *)
Definition mean (xs : list Q) : option Q :=
  match xs with
  | [] => None
  | _ => Some (Qsum xs / Qofnat (List.length xs))
  end.

Definition pvariance (xs : list Q) : option Q :=
  match mean xs with
  | None => None
  | Some m =>
      Some (Qsum (List.map (fun x => (x - m) * (x - m)) xs)
            / Qofnat (List.length xs))
  end.

Definition Qlt_bool (a b : Q) : bool := negb (Qle_bool b a).

(** [abs((x - m) / sqrt(v)) > t] for a variance [v >= 0], decided
    without the square root: the quotient is NaN when [v] is 0 (the
    comparison is then false), it is non-negative otherwise, and for
    [t >= 0] it exceeds [t] exactly when [(x - m)^2 > t^2 * v]
    (lemma [abs_zscore_gt_real] below). *)
Definition abs_zscore_gt (t x m v : Q) : bool :=
  if Qle_bool v 0 then false
  else if Qlt_bool t 0 then true
  else Qlt_bool (t * t * v) ((x - m) * (x - m)).

(** [np.abs(stats.zscore(a)) > t], element by element. *)
Definition zscore_mask (t : Q) (xs : list Q) : list bool :=
  match mean xs, pvariance xs with
  | Some m, Some v => List.map (fun x => abs_zscore_gt t x m v) xs
  | _, _ => List.map (fun _ => false) xs
  end.

(** *** Mode *)

Definition count_str (x : str) (l : list str) : nat :=
  List.length (List.filter (str_eqb x) l).

Definition max_count (l : list str) : nat :=
  fold_right Nat.max 0%nat (List.map (fun x => count_str x l) l).

Fixpoint unique (l : list str) : list str :=
  match l with
  | [] => []
  | x :: l' => x :: List.filter (fun y => negb (str_eqb x y)) (unique l')
  end.

(** [s.mode()]: the most frequent non-missing values, sorted. *)
Definition mode (vals : list (option str)) : list str :=
  let xs := dropna vals in
  sort str_leb
    (unique (List.filter (fun x => Nat.eqb (count_str x xs) (max_count xs)) xs)).

(** *** Rows and duplicates *)

Inductive cell :=
| NumCell (v : option Q)
| ObjCell (v : option str).

Definition cell_at (c : column) (i : nat) : option cell :=
  match c with
  | Numeric vals => option_map NumCell (nth_error vals i)
  | Object vals => option_map ObjCell (nth_error vals i)
  end.

(** The row at position [i]. *)
Definition row (df : DataFrame) (i : nat) : list (option cell) :=
  List.map (fun nc => cell_at (snd nc) i) (data df).

(** Equality of cells as [duplicated] sees it: missing values are equal
    to each other. *)
Definition cell_eqb (a b : cell) : bool :=
  match a, b with
  | NumCell None, NumCell None => true
  | NumCell (Some x), NumCell (Some y) => Qeq_bool x y
  | ObjCell None, ObjCell None => true
  | ObjCell (Some x), ObjCell (Some y) => str_eqb x y
  | _, _ => false
  end.

Definition ocell_eqb (a b : option cell) : bool :=
  match a, b with
  | Some x, Some y => cell_eqb x y
  | None, None => true
  | _, _ => false
  end.

Fixpoint row_eqb (r1 r2 : list (option cell)) : bool :=
  match r1, r2 with
  | [], [] => true
  | a :: r1', b :: r2' => ocell_eqb a b && row_eqb r1' r2'
  | _, _ => false
  end.

Fixpoint duplicated_from (seen rows : list (list (option cell))) : list bool :=
  match rows with
  | [] => []
  | r :: rows' => existsb (row_eqb r) seen :: duplicated_from (r :: seen) rows'
  end.

(** [df.duplicated()]: a row is marked when an earlier row equals it. *)
Definition duplicated (df : DataFrame) : list bool :=
  duplicated_from [] (List.map (row df) (seq 0%nat (len df))).

(** Selection by a positional boolean mask. *)
Fixpoint select {A} (mask : list bool) (xs : list A) : list A :=
  match mask, xs with
  | b :: mask', x :: xs' => if b then x :: select mask' xs' else select mask' xs'
  | _, _ => []
  end.

Definition select_column (mask : list bool) (c : column) : column :=
  match c with
  | Numeric vals => Numeric (select mask vals)
  | Object vals => Object (select mask vals)
  end.

Definition select_rows (mask : list bool) (df : DataFrame) : DataFrame :=
  {| index := select mask (index df);
     data := List.map (fun nc => (fst nc, select_column mask (snd nc))) (data df) |}.

(** [df.drop_duplicates()]: an empty frame is returned as it is;
    otherwise the first occurrence of every row is kept, with its
    label. *)
Definition drop_duplicates (df : DataFrame) : DataFrame :=
  if empty df then df
  else select_rows (List.map negb (duplicated df)) df.

(** [df[col]] selects every column labelled [col]: a Series when there
    is one, a DataFrame when the label repeats. *)
Definition getitem (df : DataFrame) (col : str) : list column :=
  List.map snd (List.filter (fun nc => str_eqb (fst nc) col) (data df)).

(** [df[col] = c] for a label that is present. *)
Definition setitem (df : DataFrame) (col : str) (c : column) : DataFrame :=
  {| index := index df;
     data := List.map (fun nc => if str_eqb (fst nc) col then (fst nc, c) else nc)
               (data df) |}.

(** [df.select_dtypes(include=[np.number]).columns] *)
Definition numeric_columns (df : DataFrame) : list str :=
  List.map fst
    (List.filter (fun nc => match snd nc with Numeric _ => true | Object _ => false end)
       (data df)).

End Pandas.

Import Pandas.

(** ** config.py: the data-processing configuration *)

Module Config.

(** The class attributes of [Config] that concern outlier detection and
    charts; each is read from the environment when the module is loaded,
    with the default given in [default]. *)
Record t := mk {
  OUTLIER_DETECTION_METHOD : str;
  Z_SCORE_THRESHOLD : Q;
  IQR_MULTIPLIER : Q;
  HISTOGRAM_BINS : nat
}.

Definition default : t :=
  {| OUTLIER_DETECTION_METHOD := lit "iqr";
     Z_SCORE_THRESHOLD := 3;
     IQR_MULTIPLIER := 3 # 2;
     HISTOGRAM_BINS := 30 |}.

End Config.

(** ** app.py *)

Module App.

(** The pattern of line 39: every character outside [a-zA-Z0-9_]. *)
Definition special_chars : regex :=
  NegClass [Range 97 122; Range 65 90; Range 48 57; Single 95]%N.

(** Line 39, for one column label:
    [.str.strip().str.replace(' ', '_').str.replace('[^a-zA-Z0-9_]', '')] *)
Definition clean_name (name : str) : str :=
  re_sub special_chars [] (replace (lit " ") (lit "_") (strip name)).

(** [df_clean.columns = ...]: the labels are rewritten in place, the
    columns themselves are untouched. *)
Definition clean_columns (df : DataFrame) : DataFrame :=
  {| index := index df;
     data := List.map (fun nc => (clean_name (fst nc), snd nc)) (data df) |}.

(** The body of the loop of lines 45-55 for one label.  When the label
    repeats, [df_clean[col]] is a DataFrame, which has no attribute
    [dtype]: the attribute access raises AttributeError; a DataFrame
    with a column labelled dtype answers the access with that column,
    and the membership test on it raises ValueError. *)
Definition fill_missing (df : DataFrame) (col : str) : result DataFrame :=
  match getitem df col with
  | [] => Raise KeyError
  | [Numeric vals] =>
      Ok (setitem df col (Numeric (fillna (median vals) vals)))
  | [Object vals] =>
      match mode vals with
      | m :: _ => Ok (setitem df col (Object (fillna (Some m) vals)))
      | [] => Ok (setitem df col (Object (fillna (Some (lit "Unknown")) vals)))
      end
  | _ :: _ :: _ =>
      if str_eqb col (lit "dtype") then Raise ValueError else Raise AttributeError
  end.

(** Lines 44-55: the loop over [df_clean.columns]. *)
Definition handle_missing (df : DataFrame) : result DataFrame :=
  for_each fill_missing (columns df) df.

(** [clean_data(df)], lines 33-57. *)
Definition clean_data (df : DataFrame) : result DataFrame :=
  let df_clean := df in
  let df_clean := clean_columns df_clean in
  let df_clean := drop_duplicates df_clean in
  handle_missing df_clean.

(** A Series of flagged values: row label and value, in row order. *)
Definition series := list (nat * Q).

(** [df[mask][col]] for a numeric column: the rows whose value
    satisfies [flag]; a missing value compares false. *)
Fixpoint flagged (flag : Q -> bool) (idx : list nat) (vals : list (option Q))
  : series :=
  match idx, vals with
  | i :: idx', Some x :: vals' =>
      if flag x then (i, x) :: flagged flag idx' vals' else flagged flag idx' vals'
  | _ :: idx', None :: vals' => flagged flag idx' vals'
  | _, _ => []
  end.

(** [s[mask]] for the mask of line 73, whose entries belong to the rows
    of [s] that hold a value.  When no row is left out the mask carries
    the row labels of [s] and selects by row.  Otherwise the mask does
    not fit: when it is empty it is an array of another length than [s]
    and the selection raises IndexError; when it is not, it is a Series
    whose labels are not those of [s] and the selection raises
    pandas.errors.IndexingError. *)
Definition series_getitem_mask (idx : list nat) (vals : list (option Q))
    (mask : list bool) : result series :=
  if Nat.eqb (List.length mask) (List.length vals)
  then Ok (flagged (fun _ => true) (select mask idx) (select mask vals))
  else match mask with
       | [] => Raise IndexError
       | _ :: _ => Raise IndexingError
       end.

(** The column [df[col]] of a label taken from the numeric columns.
    The frames handed to [detect_outliers] carry unique labels (those
    that [clean_data] returns do); on such a frame this is the column
    labelled [col]. *)
Definition numeric_column (df : DataFrame) (col : str) : list (option Q) :=
  match getitem df col with
  | Numeric vals :: _ => vals
  | _ => []
  end.

(** Lines 66-71: the bounds are NaN when the column has no value, and
    nothing is then flagged. *)
Definition iqr_outliers (idx : list nat) (vals : list (option Q)) : series :=
  match quantile (1 # 4) vals, quantile (3 # 4) vals with
  | Some Q1, Some Q3 =>
      let IQR := Q3 - Q1 in
      let lower_bound := Q1 - (3 # 2) * IQR in
      let upper_bound := Q3 + (3 # 2) * IQR in
      flagged (fun x => Qlt_bool x lower_bound || Qlt_bool upper_bound x) idx vals
  | _, _ => []
  end.

(** Lines 73-74. *)
Definition zscore_outliers (idx : list nat) (vals : list (option Q))
  : result series :=
  let z_scores := zscore_mask 3 (dropna vals) in
  series_getitem_mask idx vals z_scores.

(** The body of the loop of lines 64-74. *)
Definition detect_column (df : DataFrame) (method : str)
    (outliers : dict series) (col : str) : result (dict series) :=
  if str_eqb method (lit "iqr") then
    Ok (dict_set col (iqr_outliers (index df) (numeric_column df col)) outliers)
  else if str_eqb method (lit "zscore") then
    s <- zscore_outliers (index df) (numeric_column df col) ;;
    Ok (dict_set col s outliers)
  else Ok outliers.

(** [detect_outliers(df, method)], lines 59-76. *)
Definition detect_outliers (df : DataFrame) (method : str)
  : result (dict series) :=
  let outliers := [] in
  let numerical_cols := numeric_columns df in
  for_each (detect_column df method) numerical_cols outliers.

(** The default of the keyword argument. *)
Definition detect_outliers_default (df : DataFrame) : result (dict series) :=
  detect_outliers df (lit "iqr").

(** An entry of [report['outlier_summary']]. *)
Record summary := mkSummary {
  count : nat;
  percentage : Q
}.

(** [a / b] on Python integers. *)
Definition truediv (a b : nat) : result Q :=
  match b with
  | O => Raise ZeroDivisionError
  | _ => Ok (Qofnat a / Qofnat b)
  end.

(** The body of the loop of lines 99-103. *)
Definition summarize (df : DataFrame) (acc : dict summary)
    (item : str * series) : result (dict summary) :=
  let (col, outlier_data) := item in
  ratio <- truediv (List.length outlier_data) (len df) ;;
  Ok (dict_set col
        {| count := List.length outlier_data; percentage := ratio * 100 |} acc).

(** Lines 98-103 of [generate_eda_report]. *)
Definition outlier_summary (df : DataFrame) (outliers : dict series)
  : result (dict summary) :=
  for_each (summarize df) outliers [].

(** The fields of the report that are counts; the descriptive
    statistics and the correlation matrix, which are floating-point
    aggregates computed by pandas, are left out. *)
Record report := mkReport {
  shape : nat * nat;
  report_columns : list str;
  missing_values : dict nat;
  report_outlier_summary : dict summary
}.

Definition isnull_sum_dict (df : DataFrame) : dict nat :=
  fold_left (fun d nc => dict_set (fst nc) (missing_count (snd nc)) d) (data df) [].

(** [generate_eda_report(df, outliers)], lines 78-112. *)
Definition generate_eda_report (df : DataFrame) (outliers : dict series)
  : result report :=
  let shape := (len df, List.length (data df)) in
  let cols := columns df in
  let missing := isnull_sum_dict df in
  s <- outlier_summary df outliers ;;
  Ok {| shape := shape; report_columns := cols; missing_values := missing;
        report_outlier_summary := s |}.


(** Lines 19-21. *)
Definition ALLOWED_EXTENSIONS : list str := [lit "csv"].
Definition MAX_FILE_SIZE : N := (50 * 1024 * 1024)%N.

(** [allowed_file(filename)], lines 29-31; [and] evaluates its second
    operand only when the first holds. *)
Definition allowed_file (filename : str) : result bool :=
  if contains 46%N filename then
    ext <- list_getitem (rsplit1 46%N filename) 1 ;;
    Ok (existsb (str_eqb (lower ext)) ALLOWED_EXTENSIONS)
  else Ok false.

(** The messages that [analyze] flashes before it redirects to the
    index page; the two that quote an exception carry it. *)
Inductive flash :=
| NoFileSelected
| InvalidFileType
| FileTooLarge
| ErrorReadingCSV
| UploadedFileEmpty
| AnalysisError (e : exn).

(** What [analyze] reads from the uploaded file: its name, its size in
    bytes (seek to the end, tell) and what [pd.read_csv] makes of it,
    [None] standing for an exception of the parser. *)
Record upload := mkUpload {
  filename : str;
  file_size : N;
  read_csv : option DataFrame
}.

(** The values computed by lines 243-249. *)
Record analysis := mkAnalysis {
  df_clean : DataFrame;
  outliers : dict series;
  eda_report : report
}.

(** Lines 243-249 of [analyze]. *)
Definition analyze_frame (df : DataFrame) : result analysis :=
  df_clean <- clean_data df ;;
  outliers <- detect_outliers_default df_clean ;;
  report <- generate_eda_report df_clean outliers ;;
  Ok {| df_clean := df_clean; outliers := outliers; eda_report := report |}.

(** [analyze()], lines 201-249 and 273-275: the checks on the upload,
    the analysis, and the handler that turns any exception into a
    flashed message.  [Analysed a] stands for the route going on, with
    the values [a], to the plots, the insights, the temporary file and
    the template of lines 251-271, which are outside the model. *)
Inductive response :=
| Redirect (message : flash)
| Analysed (a : analysis).

Definition analyze (files : option upload) : response :=
  match files with
  | None => Redirect NoFileSelected
  | Some file =>
      if str_eqb (filename file) [] then Redirect NoFileSelected
      else
        match allowed_file (filename file) with
        | Raise e => Redirect (AnalysisError e)
        | Ok false => Redirect InvalidFileType
        | Ok true =>
            if N.ltb MAX_FILE_SIZE (file_size file) then Redirect FileTooLarge
            else
              match read_csv file with
              | None => Redirect ErrorReadingCSV
              | Some df =>
                  if empty df then Redirect UploadedFileEmpty
                  else
                    match analyze_frame df with
                    | Ok a => Analysed a
                    | Raise e => Redirect (AnalysisError e)
                    end
              end
        end
  end.

End App.

Import App.

(** ** The specification's wording, for comparison with the code *)

Module Spec.

(** The characters of [A-Za-z0-9_]. *)
Definition word_char (c : char) : bool :=
  (in_range 65 90 c || in_range 97 122 c || in_range 48 57 c || N.eqb c 95)%bool.

Definition underscore : char := 95%N.
Definition space : char := 32%N.

(** Section 4.1 as worded: trim surrounding whitespace, replace interior
    whitespace with underscore, strip any character outside
    [A-Za-z0-9_]. *)
Definition canonical_name (name : str) : str :=
  List.filter word_char
    (List.map (fun c => if isspace c then underscore else c) (strip name)).

(** The same with the replacement restricted to the space character. *)
Definition canonical_name_spaces (name : str) : str :=
  List.filter word_char
    (List.map (fun c => if N.eqb c space then underscore else c) (strip name)).

(** Section 4.2: the imputed form of one column. *)
Definition impute_column (c : column) : column :=
  match c with
  | Numeric vals => Numeric (fillna (median vals) vals)
  | Object vals => Object (fillna (Some (hd (lit "Unknown") (mode vals))) vals)
  end.

Definition imputed_pair (nc : str * column) : str * column :=
  (fst nc, impute_column (snd nc)).

Definition impute (df : DataFrame) : DataFrame :=
  {| index := index df; data := List.map imputed_pair (data df) |}.

(** Section 2: the cleaning stage in the order 1, 2, 3. *)
Definition clean (df : DataFrame) : DataFrame :=
  drop_duplicates (impute (clean_columns df)).

(** Section 3: all columns have the length of the index. *)
Definition well_formed (df : DataFrame) : Prop :=
  Forall (fun nc => column_length (snd nc) = len df) (data df).

(** How many columns carry the label [col]. *)
Definition occurrences (col : str) (labels : list str) : nat :=
  List.length (List.filter (fun k => str_eqb k col) labels).

(** The first label, in column order, that more than one column
    carries. *)
Definition first_repeated (labels : list str) : option str :=
  find (fun col => Nat.leb 2 (occurrences col labels)) labels.

(** The first numeric column, in column order, with a missing value. *)
Definition first_gap (df : DataFrame) : option str :=
  find (fun col => negb (Nat.eqb (isnull_sum (numeric_column df col)) 0))
    (numeric_columns df).

(** [m] is a most frequent non-missing value of the column. *)
Definition is_mode (m : str) (vals : list (option str)) : Prop :=
  In m (dropna vals) /\
  forall y, (count_str y (dropna vals) <= count_str m (dropna vals))%nat.

(** Section 4.2 as a relation between a column and its imputed form:
    present entries are kept; a missing numeric entry becomes the
    median of the non-missing values, and stays missing when there is
    none; a missing categorical entry becomes a most frequent value, or
    "Unknown" when there is none. *)
Definition filled_with {A} (value : option A) (vals vals' : list (option A))
  : Prop :=
  Forall2 (fun v v' => match v with Some x => v' = Some x | None => v' = value end)
    vals vals'.

Definition imputed (c c' : column) : Prop :=
  match c, c' with
  | Numeric vals, Numeric vals' =>
      filled_with (median vals) vals vals' /\
      (median vals = None <-> dropna vals = []) /\
      (dropna vals <> [] -> isnull_sum vals' = 0%nat) /\
      (dropna vals = [] -> vals' = vals)
  | Object vals, Object vals' =>
      (exists m, filled_with (Some m) vals vals' /\
                 (dropna vals <> [] -> is_mode m vals) /\
                 (dropna vals = [] -> m = lit "Unknown")) /\
      isnull_sum vals' = 0%nat
  | _, _ => False
  end.

(** A column on which imputation has nothing left to do. *)
Definition settled (c : column) : Prop :=
  match c with
  | Numeric vals => isnull_sum vals = 0%nat \/ dropna vals = []
  | Object vals => isnull_sum vals = 0%nat
  end.

Definition all_settled (df : DataFrame) : Prop :=
  Forall (fun nc => settled (snd nc)) (data df).

(** Section 4.5: the entry [e] of the outlier summary for the item
    [item] of the outlier map, over [n] rows. *)
Definition summarizes (n : nat) (item : str * series) (e : str * summary) : Prop :=
  fst e = fst item /\
  count (snd e) = List.length (snd item) /\
  percentage (snd e) == 100 * Qofnat (List.length (snd item)) / Qofnat n.

(** Section 4.4 with injected configuration: multiplier [k] and
    threshold [t]. *)
Definition iqr_outliers (k : Q) (idx : list nat) (vals : list (option Q))
  : series :=
  match quantile (1 # 4) vals, quantile (3 # 4) vals with
  | Some Q1, Some Q3 =>
      flagged (fun x => Qlt_bool x (Q1 - k * (Q3 - Q1))
                        || Qlt_bool (Q3 + k * (Q3 - Q1)) x) idx vals
  | _, _ => []
  end.

Definition zscore_outliers (t : Q) (idx : list nat) (vals : list (option Q))
  : result series :=
  series_getitem_mask idx vals (zscore_mask t (dropna vals)).

Definition detect_column (cfg : Config.t) (df : DataFrame)
    (outliers : dict series) (col : str) : result (dict series) :=
  if str_eqb (Config.OUTLIER_DETECTION_METHOD cfg) (lit "iqr") then
    Ok (dict_set col
          (iqr_outliers (Config.IQR_MULTIPLIER cfg) (index df) (numeric_column df col))
          outliers)
  else if str_eqb (Config.OUTLIER_DETECTION_METHOD cfg) (lit "zscore") then
    s <- zscore_outliers (Config.Z_SCORE_THRESHOLD cfg) (index df)
           (numeric_column df col) ;;
    Ok (dict_set col s outliers)
  else Ok outliers.

Definition detect_outliers (cfg : Config.t) (df : DataFrame)
  : result (dict series) :=
  for_each (detect_column cfg df) (numeric_columns df) [].


(** The rows of a frame, top to bottom. *)
Definition rows (df : DataFrame) : list (list (option cell)) :=
  List.map (row df) (seq 0%nat (len df)).

(** No row equals an earlier one. *)
Fixpoint distinct (rs : list (list (option cell))) : Prop :=
  match rs with
  | [] => True
  | r :: rs' => (forall r', In r' rs' -> row_eqb r' r = false) /\ distinct rs'
  end.

(** A frame without a missing value. *)
Definition complete (df : DataFrame) : Prop :=
  Forall (fun nc => missing_count (snd nc) = 0%nat) (data df).


(** The extension csv in any mix of upper and lower case. *)
Definition is_csv (ext : str) : Prop :=
  exists c s v, ext = [c; s; v] /\
                (c = 99 \/ c = 67)%N /\ (s = 115 \/ s = 83)%N /\ (v = 118 \/ v = 86)%N.


(** The cells of a column, top to bottom. *)
Definition cells (c : column) : list cell :=
  match c with
  | Numeric vals => List.map NumCell vals
  | Object vals => List.map ObjCell vals
  end.

(** The first [n] rows across a list of cell lists. *)
Definition across (L : list (list cell)) (n : nat) : list (list (option cell)) :=
  List.map (fun i => List.map (fun l => nth_error l i) L) (seq 0%nat n).

(** The rows that [duplicated_from] does not mark. *)
Definition kept (seen rs : list (list (option cell))) : list (list (option cell)) :=
  select (List.map negb (duplicated_from seen rs)) rs.

End Spec.

(** ** Frames used as test data *)

Module Data.

Definition ints (l : list Z) : list (option Q) :=
  List.map (fun z => Some (inject_Z z)) l.

(** The frame of [test_outlier_detection] (test_app.py). *)
Definition outlier_frame : DataFrame :=
  {| index := seq 0 10;
     data := [ (lit "Normal_Values", Numeric (ints [1;2;3;4;5;6;7;8;9;10]%Z));
               (lit "With_Outliers", Numeric (ints [1;2;3;4;5;6;7;8;9;100]%Z)) ] |}.

(** One numeric column whose first two rows are equal and whose last
    value is missing. *)
Definition repeated_frame : DataFrame :=
  {| index := seq 0 4;
     data := [ (lit "x", Numeric [Some 1; Some 1; Some 3; None]) ] |}.

(** One numeric column, one value present and one missing. *)
Definition gap_frame : DataFrame :=
  {| index := seq 0 2;
     data := [ (lit "x", Numeric [Some 1; None]) ] |}.

(** Two labels that differ only by a space against an underscore. *)
Definition colliding_frame : DataFrame :=
  {| index := seq 0 2;
     data := [ (lit "a b", Numeric [Some 1; Some 2]);
               (lit "a_b", Numeric [Some 3; Some 4]) ] |}.

(** Two labels that collapse to the canonical label dtype. *)
Definition dtype_frame : DataFrame :=
  {| index := seq 0 1;
     data := [ (lit "dtype", Numeric [Some 1]);
               (lit "dtype ", Numeric [Some 2]) ] |}.

(** Eight rows: seven equal values and one other. *)
Definition spike_frame : DataFrame :=
  {| index := seq 0 8;
     data := [ (lit "x", Numeric (ints [0;0;0;0;0;0;0;7]%Z)) ] |}.

(** The frame of [test_data_cleaning] (test_app.py). *)
Definition staff_frame : DataFrame :=
  {| index := seq 0 6;
     data :=
       [ (lit "Name", Object [Some (lit "John"); Some (lit "Jane"); Some (lit "John");
                              Some (lit "Mike"); Some (lit "Sarah"); None]);
         (lit "Age", Numeric [Some 25; Some 30; Some 25; Some 35; Some 28; None]);
         (lit "Salary", Numeric (ints [50000; 60000; 50000; 70000; 55000; 65000]%Z));
         (lit "Department", Object [Some (lit "IT"); Some (lit "HR"); Some (lit "IT");
                                    Some (lit "Sales"); Some (lit "IT");
                                    Some (lit "Marketing")]) ] |}.

(** A numeric column and no row. *)
Definition no_rows : DataFrame :=
  {| index := []; data := [ (lit "a", Numeric []) ] |}.

(** A label with a tab between two letters. *)
Definition tabbed_name : str := [97; 9; 98]%N.

(** A configuration that overrides the multiplier and the threshold. *)
Definition wide_config : Config.t :=
  {| Config.OUTLIER_DETECTION_METHOD := lit "iqr";
     Config.Z_SCORE_THRESHOLD := 2;
     Config.IQR_MULTIPLIER := 30;
     Config.HISTOGRAM_BINS := 30 |}.

End Data.

(** * Properties *)

(** ** Strings, loops and dictionaries *)

Lemma char_eqb_eq (a b : char) : char_eqb a b = true <-> a = b.
Proof. apply N.eqb_eq. Qed.

Lemma str_eqb_eq (a b : str) : str_eqb a b = true <-> a = b.
Proof.
  revert b; induction a as [|x a IH]; intros [|y b]; simpl; split;
    try congruence; try reflexivity.
  - intros H. apply andb_true_iff in H as [Hx Ha].
    apply char_eqb_eq in Hx. apply IH in Ha. congruence.
  - intros H. injection H as -> ->.
    apply andb_true_iff; split; [apply char_eqb_eq | apply IH]; reflexivity.
Qed.

Lemma str_eqb_refl (a : str) : str_eqb a a = true.
Proof. now apply str_eqb_eq. Qed.

Lemma str_eqb_neq (a b : str) : a <> b -> str_eqb a b = false.
Proof.
  intros H. destruct (str_eqb a b) eqn:E; [|reflexivity].
  apply str_eqb_eq in E. contradiction.
Qed.

Lemma str_eqb_sym (a b : str) : str_eqb a b = str_eqb b a.
Proof.
  destruct (str_eqb b a) eqn:E.
  - apply str_eqb_eq in E. subst. apply str_eqb_refl.
  - apply str_eqb_neq. intros ->. rewrite str_eqb_refl in E. discriminate.
Qed.

Lemma str_eq_dec (a b : str) : {a = b} + {a <> b}.
Proof.
  destruct (str_eqb a b) eqn:E.
  - left. now apply str_eqb_eq.
  - right. intros ->. rewrite str_eqb_refl in E. discriminate.
Defined.

Lemma dict_get_set_same {V} (k : str) (v : V) (d : dict V) :
  dict_get k (dict_set k v d) = Some v.
Proof.
  induction d as [|[k' v'] d IH]; simpl.
  - now rewrite str_eqb_refl.
  - destruct (str_eqb k' k) eqn:E; simpl; rewrite E; auto.
Qed.

Lemma dict_get_set_other {V} (k k0 : str) (v : V) (d : dict V) :
  k <> k0 -> dict_get k0 (dict_set k v d) = dict_get k0 d.
Proof.
  intros Hne. induction d as [|[k' v'] d IH]; simpl.
  - rewrite str_eqb_neq; auto.
  - destruct (str_eqb k' k) eqn:E; simpl.
    + apply str_eqb_eq in E. subst k'. rewrite str_eqb_neq; auto.
    + destruct (str_eqb k' k0); auto.
Qed.

(** ** Outlier detection on the test columns *)

(** C10. With a method string other than 'iqr' and 'zscore' no column
    is evaluated: [detect_outliers] returns the empty dictionary and
    raises nothing, whatever the frame. *)
Theorem detect_outliers_unknown_method (df : DataFrame) (method : str) :
  method <> lit "iqr" -> method <> lit "zscore" ->
  detect_outliers df method = Ok [].
Proof.
  intros Hi Hz. unfold detect_outliers.
  induction (numeric_columns df) as [|col cols IH]; simpl.
  - reflexivity.
  - unfold detect_column at 1.
    rewrite (str_eqb_neq _ _ Hi), (str_eqb_neq _ _ Hz). simpl. exact IH.
Qed.

Lemma detect_outliers_unknown_method_witness :
  detect_outliers Data.outlier_frame (lit "mad") = Ok [].
Proof.
  apply detect_outliers_unknown_method; intros H; vm_compute in H; discriminate H.
Defined.

(** C3. On the two columns of the outlier test, the quartiles of
    [1..10] are 3.25 and 7.75, the bounds are -3.5 and 14.5, the IQR
    rule with multiplier 1.5 flags nothing in [1..10] and flags exactly
    the value 100 (row 9) in [1..9,100]. *)
Theorem iqr_detection_on_test_columns :
  let normal := Data.ints [1;2;3;4;5;6;7;8;9;10]%Z in
  let outlying := Data.ints [1;2;3;4;5;6;7;8;9;100]%Z in
  quantile (1 # 4) normal = Some (13 # 4) /\
  quantile (3 # 4) normal = Some (31 # 4) /\
  (13 # 4) - (3 # 2) * ((31 # 4) - (13 # 4)) == - (7 # 2) /\
  (31 # 4) + (3 # 2) * ((31 # 4) - (13 # 4)) == 29 # 2 /\
  iqr_outliers (seq 0 10) normal = [] /\
  iqr_outliers (seq 0 10) outlying = [(9%nat, 100)] /\
  detect_outliers Data.outlier_frame (lit "iqr")
  = Ok [ (lit "Normal_Values", []); (lit "With_Outliers", [(9%nat, 100)]) ].
Proof.
  cbv zeta. repeat split; vm_compute; reflexivity.
Qed.

Lemma Qlt_bool_iff (a b : Q) : Qlt_bool a b = true <-> a < b.
Proof.
  unfold Qlt_bool. rewrite negb_true_iff. split.
  - intros H. apply Qnot_le_lt. intros Hle. apply Qle_bool_iff in Hle. congruence.
  - intros H. destruct (Qle_bool b a) eqn:E; [|reflexivity].
    apply Qle_bool_iff in E. apply Qlt_not_le in H. contradiction.
Qed.

(** The square-free test of [abs_zscore_gt] is the comparison of the
    standardized score written with the real square root. *)
Lemma Q2R_zero : Q2R 0 = 0%R.
Proof. apply RMicromega.Q2R_0. Qed.

Lemma abs_zscore_gt_real (t x m v : Q) :
  0 < v ->
  abs_zscore_gt t x m v = true <->
  (Rabs ((Q2R x - Q2R m) / sqrt (Q2R v)) > Q2R t)%R.
Proof.
  intros Hv. unfold abs_zscore_gt.
  assert (Hv0 : Qle_bool v 0 = false).
  { destruct (Qle_bool v 0) eqn:E; [|reflexivity].
    apply Qle_bool_iff in E. apply Qlt_not_le in Hv. contradiction. }
  rewrite Hv0.
  assert (HV : (0 < Q2R v)%R) by (rewrite <- Q2R_zero; now apply Qlt_Rlt).
  pose proof (sqrt_lt_R0 _ HV) as Hs.
  pose proof (sqrt_sqrt (Q2R v) (Rlt_le _ _ HV)) as Hss.
  set (s := sqrt (Q2R v)) in *. clearbody s.
  set (D := (Q2R x - Q2R m)%R).
  assert (Habs : Rabs (D / s) = (Rabs D / s)%R).
  { unfold Rdiv. rewrite Rabs_mult, (Rabs_pos_eq (/ s)); [reflexivity|].
    left. now apply Rinv_0_lt_compat. }
  rewrite Habs.
  pose proof (Rabs_pos D) as Ha.
  assert (Haa : (Rabs D * Rabs D = D * D)%R).
  { unfold Rabs. destruct (Rcase_abs D); ring. }
  set (a := Rabs D) in *. clearbody a.
  assert (Hdiv : forall T : R, (a / s > T <-> a > T * s)%R).
  { intros T. assert (E : a = (a / s * s)%R) by (field; Lra.lra).
    unfold Rgt. split; intros H.
    - rewrite E. apply Rmult_lt_compat_r; assumption.
    - apply Rmult_lt_reg_r with s; [exact Hs|]. rewrite <- E. exact H. }
  destruct (Qlt_bool t 0) eqn:Et.
  - apply Qlt_bool_iff in Et. apply Qlt_Rlt in Et.
    rewrite Q2R_zero in Et.
    split; [intros _|reflexivity].
    apply Hdiv. Lra.nra.
  - assert (HT : (0 <= Q2R t)%R).
    { destruct (Qlt_le_dec t 0) as [H|H].
      - apply Qlt_bool_iff in H. congruence.
      - apply Qle_Rle in H. rewrite Q2R_zero in H. exact H. }
    rewrite Qlt_bool_iff. rewrite Hdiv.
    assert (Hsq : ((Q2R t * s) * (Q2R t * s) = Q2R t * Q2R t * Q2R v)%R)
      by (rewrite <- Hss; ring).
    assert (HTs : (0 <= Q2R t * s)%R) by (apply Rmult_le_pos; Lra.lra).
    split; intros H.
    + apply Qlt_Rlt in H. rewrite !Q2R_mult, Q2R_minus in H. fold D in H.
      destruct (Rlt_le_dec (Q2R t * s) a) as [Hlt|Hle]; [exact Hlt|].
      assert (a * a <= (Q2R t * s) * (Q2R t * s))%R
        by (apply Rmult_le_compat; assumption).
      Lra.lra.
    + apply Rlt_Qlt. rewrite !Q2R_mult, Q2R_minus. fold D.
      assert ((Q2R t * s) * (Q2R t * s) < a * a)%R
        by (apply Rmult_le_0_lt_compat; assumption).
      Lra.lra.
Qed.

(** *** How large a standardized score can be *)

Lemma Qsum_app (l1 l2 : list Q) : Qsum (l1 ++ l2) == Qsum l1 + Qsum l2.
Proof.
  induction l1 as [|a l1 IH]; simpl; [ring|]. rewrite IH. ring.
Qed.

Lemma Qofnat_S (n : nat) : Qofnat (S n) == Qofnat n + 1.
Proof.
  unfold Qofnat. rewrite Nat2Z.inj_succ, <- Z.add_1_r, inject_Z_plus. reflexivity.
Qed.

Lemma Qofnat_nonneg (n : nat) : 0 <= Qofnat n.
Proof. unfold Qofnat, Qle; simpl. lia. Qed.

Lemma Qsquare_nonneg (x : Q) : 0 <= x * x.
Proof. Lqa.nra. Qed.

Lemma spread_nonneg (a : Q) (l : list Q) :
  0 <= Qofnat (List.length l) * (a * a) - 2 * a * Qsum l
       + Qsum (List.map (fun x => x * x) l).
Proof.
  induction l as [|b l IH]; cbn [List.length List.map Qsum fold_right].
  - change (Qofnat 0) with 0. Lqa.lra.
  - fold (Qsum l). fold (Qsum (List.map (fun x => x * x) l)).
    rewrite Qofnat_S.
    pose proof (Qsquare_nonneg (a - b)) as H.
    Lqa.lra.
Qed.

Lemma sum_square_bound (l : list Q) :
  Qsum l * Qsum l <= Qofnat (List.length l) * Qsum (List.map (fun x => x * x) l).
Proof.
  induction l as [|a l IH]; cbn [List.length List.map Qsum fold_right].
  - change (Qofnat 0) with 0. Lqa.lra.
  - fold (Qsum l). fold (Qsum (List.map (fun x => x * x) l)).
    rewrite Qofnat_S. pose proof (spread_nonneg a l) as H.
    Lqa.nra.
Qed.

Lemma Qsum_deviations (m : Q) (l : list Q) :
  Qsum (List.map (fun y => y - m) l) == Qsum l - Qofnat (List.length l) * m.
Proof.
  induction l as [|a l IH]; cbn [List.length List.map Qsum fold_right].
  - change (Qofnat 0) with 0. ring.
  - fold (Qsum l). fold (Qsum (List.map (fun y => y - m) l)).
    rewrite IH, Qofnat_S. ring.
Qed.

Lemma Qsum_middle {A} (f : A -> Q) (l1 l2 : list A) (x : A) :
  Qsum (List.map f (l1 ++ x :: l2)) == Qsum (List.map f (l1 ++ l2)) + f x.
Proof.
  rewrite !map_app, !Qsum_app. cbn [List.map Qsum fold_right].
  fold (Qsum (List.map f l2)). ring.
Qed.

(** No value lies further from the mean than the square root of
    (n - 1) times the population variance. *)
Lemma deviation_bound (xs : list Q) (x m v : Q) :
  In x xs -> mean xs = Some m -> pvariance xs = Some v ->
  (x - m) * (x - m) <= Qofnat (List.length xs - 1) * v.
Proof.
  intros Hin Hm Hv. unfold pvariance in Hv. rewrite Hm in Hv. injection Hv as <-.
  apply in_split in Hin as (l1 & l2 & ->).
  assert (Em : m = Qsum (l1 ++ x :: l2) / Qofnat (List.length (l1 ++ x :: l2))).
  { unfold mean in Hm. destruct (l1 ++ x :: l2) eqn:E.
    - destruct l1; discriminate.
    - now injection Hm. }
  clear Hm.
  assert (El : List.length (l1 ++ x :: l2) = S (List.length (l1 ++ l2))).
  { rewrite !length_app. simpl. lia. }
  rewrite El in *. cbn [Nat.sub]. rewrite Nat.sub_0_r.
  set (rest := l1 ++ l2) in *. set (K := Qofnat (List.length rest)) in *.
  pose proof (Qofnat_S (List.length rest)) as EN. fold K in EN.
  pose proof (Qofnat_nonneg (List.length rest)) as HK. fold K in HK.
  set (N := Qofnat (S (List.length rest))) in *.
  assert (HN : 0 < N) by (rewrite EN; Lqa.lra).
  pose proof (Qsum_middle (fun y => y) l1 l2 x) as E1. rewrite !map_id in E1.
  fold rest in E1.
  assert (E2 : m * N == Qsum rest + x).
  { rewrite Em, E1. field. intros H0. rewrite H0 in HN. now apply Qlt_irrefl in HN. }
  pose proof (Qsum_deviations m rest) as E3. fold K in E3.
  pose proof (Qsum_middle (fun y => (y - m) * (y - m)) l1 l2 x) as E4.
  fold rest in E4. cbv beta in E4.
  pose proof (sum_square_bound (List.map (fun y => y - m) rest)) as CS.
  rewrite length_map, map_map in CS. fold K in CS. cbv beta in CS.
  rewrite E3 in CS.
  set (S0 := Qsum (List.map (fun y => (y - m) * (y - m)) rest)) in *.
  rewrite E4.
  apply Qle_trans with ((K * (S0 + (x - m) * (x - m))) / N).
  - apply Qle_shift_div_l; [exact HN|].
    assert (Er : Qsum rest == m * N - x) by (rewrite E2; ring).
    rewrite Er, EN in CS. rewrite EN.
    setoid_replace (m * (K + 1) - x - K * m) with (- (x - m)) in CS by ring.
    setoid_replace (- (x - m) * - (x - m)) with ((x - m) * (x - m)) in CS by ring.
    Lqa.lra.
  - apply Qle_lteq. right. field.
    intros H0. rewrite H0 in HN. now apply Qlt_irrefl in HN.
Qed.

(** A threshold [t] with [n - 1 <= t^2] cannot be exceeded among [n]
    values. *)
Lemma abs_zscore_bounded (t : Q) (xs : list Q) (x m v : Q) :
  0 <= t -> Qofnat (List.length xs - 1) <= t * t ->
  In x xs -> mean xs = Some m -> pvariance xs = Some v ->
  abs_zscore_gt t x m v = false.
Proof.
  intros Ht Hn Hin Hm Hv. unfold abs_zscore_gt.
  destruct (Qle_bool v 0) eqn:Ev; [reflexivity|].
  assert (Hpos : 0 < v).
  { apply Qnot_le_lt. intros H. apply Qle_bool_iff in H. congruence. }
  destruct (Qlt_bool t 0) eqn:Et.
  { apply Qlt_bool_iff in Et. Lqa.lra. }
  destruct (Qlt_bool (t * t * v) ((x - m) * (x - m))) eqn:E; [|reflexivity].
  apply Qlt_bool_iff in E.
  pose proof (deviation_bound xs x m v Hin Hm Hv) as Hb.
  assert (Qofnat (List.length xs - 1) * v <= t * t * v).
  { apply Qmult_le_compat_r; [exact Hn | now apply Qlt_le_weak]. }
  Lqa.lra.
Qed.

Lemma zscore_mask_small (xs : list Q) :
  (List.length xs <= 10)%nat -> zscore_mask 3 xs = List.map (fun _ => false) xs.
Proof.
  intros Hn. unfold zscore_mask.
  destruct (mean xs) as [m|] eqn:Em; [|reflexivity].
  destruct (pvariance xs) as [v|] eqn:Ev; [|reflexivity].
  apply map_ext_in. intros x Hx.
  apply (abs_zscore_bounded 3 xs x m v); try assumption.
  - discriminate.
  - unfold Qofnat, Qle; simpl. lia.
Qed.

Lemma select_none {A B} (xs : list A) (ys : list B) :
  select (List.map (fun _ => false) xs) ys = [].
Proof.
  revert ys. induction xs as [|x xs IH]; intros [|y ys]; simpl; auto.
Qed.

(** In exact arithmetic the Z-score rule with the threshold 3 flags
    nothing in a column of ten values or fewer. *)
Lemma zscore_outliers_small (idx : list nat) (vals : list (option Q)) (s : series) :
  (List.length (dropna vals) <= 10)%nat ->
  zscore_outliers idx vals = Ok s -> s = [].
Proof.
  intros Hn. unfold zscore_outliers, series_getitem_mask.
  rewrite zscore_mask_small by exact Hn.
  destruct (Nat.eqb _ _);
    [|destruct (List.map (fun _ : Q => false) (dropna vals)); discriminate].
  rewrite !select_none. simpl. now intros [= <-].
Qed.

(** The claim C2 fails on the test column: the Z-score rule with
    threshold 3 does not flag the value 100 of [1..9,100]. *)
Lemma zscore_does_not_flag_100 :
  ~ exists outliers s i x,
      detect_outliers Data.outlier_frame (lit "zscore") = Ok outliers /\
      dict_get (lit "With_Outliers") outliers = Some s /\
      In (i, x) s /\ x == 100.
Proof.
  intros (outliers & s & i & x & Hd & Hg & Hin & _).
  vm_compute in Hd. injection Hd as <-.
  vm_compute in Hg. injection Hg as <-.
  destruct Hin.
Qed.

(** C2, amended. On [1..9,100] the mean is 14.5 and the population
    variance 818.25; the squared deviation of 100 is 7310.25, below
    9 * 818.25, so its absolute standardized score (about 2.989) does
    not exceed 3: the Z-score rule with threshold 3 flags no value of
    the column. *)
Theorem zscore_detection_on_test_column :
  let outlying := Data.ints [1;2;3;4;5;6;7;8;9;100]%Z in
  (exists m v,
      mean (dropna outlying) = Some m /\ m == 29 # 2 /\
      pvariance (dropna outlying) = Some v /\ v == 3273 # 4 /\
      (100 - m) * (100 - m) == 29241 # 4 /\
      (100 - m) * (100 - m) < 3 * 3 * v /\
      abs_zscore_gt 3 100 m v = false) /\
  zscore_outliers (seq 0 10) outlying = Ok [] /\
  detect_outliers Data.outlier_frame (lit "zscore")
  = Ok [ (lit "Normal_Values", []); (lit "With_Outliers", []) ].
Proof.
  cbv zeta. split; [|split; vm_compute; reflexivity].
  eexists; eexists.
  split; [vm_compute; reflexivity|].
  split; [vm_compute; reflexivity|].
  split; [vm_compute; reflexivity|].
  repeat split; vm_compute; reflexivity.
Qed.

(** C9. The multiplier and the threshold of [Config] do not reach the
    detector: with the multiplier set to 30 the configured bounds of
    [1..9,100] are -131.75 and 142.75 and flag nothing, with the
    threshold set to 2 the Z-score rule flags 100, yet
    [detect_outliers] flags 100 under 'iqr' and nothing under 'zscore',
    as it does with the defaults 1.5 and 3. *)
Theorem detect_outliers_ignores_config :
  let outlying := Data.ints [1;2;3;4;5;6;7;8;9;100]%Z in
  Spec.iqr_outliers (Config.IQR_MULTIPLIER Data.wide_config) (seq 0 10) outlying = [] /\
  iqr_outliers (seq 0 10) outlying = [(9%nat, 100)] /\
  Spec.zscore_outliers (Config.Z_SCORE_THRESHOLD Data.wide_config) (seq 0 10) outlying
  = Ok [(9%nat, 100)] /\
  zscore_outliers (seq 0 10) outlying = Ok [] /\
  Spec.detect_outliers Data.wide_config Data.outlier_frame
  = Ok [ (lit "Normal_Values", []); (lit "With_Outliers", []) ] /\
  detect_outliers Data.outlier_frame (Config.OUTLIER_DETECTION_METHOD Data.wide_config)
  = Ok [ (lit "Normal_Values", []); (lit "With_Outliers", [(9%nat, 100)]) ].
Proof.
  cbv zeta. repeat split; vm_compute; reflexivity.
Qed.

(** With the defaults of [Config] the configured detector and the
    program agree on every frame. *)
Lemma detect_outliers_default_config (df : DataFrame) (method : str) :
  detect_outliers df method
  = Spec.detect_outliers
      {| Config.OUTLIER_DETECTION_METHOD := method;
         Config.Z_SCORE_THRESHOLD := Config.Z_SCORE_THRESHOLD Config.default;
         Config.IQR_MULTIPLIER := Config.IQR_MULTIPLIER Config.default;
         Config.HISTOGRAM_BINS := Config.HISTOGRAM_BINS Config.default |} df.
Proof.
  unfold detect_outliers, Spec.detect_outliers.
  generalize (@nil (str * series)).
  induction (numeric_columns df) as [|col cols IH]; intros acc; simpl.
  - reflexivity.
  - unfold detect_column at 1, Spec.detect_column at 1. simpl.
    destruct (str_eqb method (lit "iqr")).
    + simpl. apply IH.
    + destruct (str_eqb method (lit "zscore")); [|simpl; apply IH].
      unfold zscore_outliers, Spec.zscore_outliers.
      destruct (series_getitem_mask _ _ _); simpl; [apply IH | reflexivity].
Qed.

(** ** Column labels *)

Lemma replace_space_map (s : str) :
  replace (lit " ") (lit "_") s
  = List.map (fun c => if N.eqb c Spec.space then Spec.underscore else c) s.
Proof.
  change (replace (lit " ") (lit "_") s)
    with (replace_from [32%N] [95%N] 0 s).
  induction s as [|c s IH]; [reflexivity|].
  cbn [replace_from is_prefix List.map List.length Nat.sub app].
  unfold char_eqb, Spec.space, Spec.underscore in *.
  rewrite andb_true_r, N.eqb_sym.
  destruct (N.eqb c 32); rewrite IH; reflexivity.
Qed.

Lemma special_chars_word (c : char) :
  matches special_chars c = negb (Spec.word_char c).
Proof.
  unfold special_chars, matches, existsb, item_matches, Spec.word_char, char_eqb.
  destruct (in_range 97 122 c), (in_range 65 90 c), (in_range 48 57 c), (N.eqb c 95);
    reflexivity.
Qed.

Lemma re_sub_special_filter (s : str) :
  re_sub special_chars [] s = List.filter Spec.word_char s.
Proof.
  unfold re_sub. induction s as [|c s IH]; [reflexivity|].
  cbn [flat_map List.filter]. rewrite special_chars_word, IH.
  destruct (Spec.word_char c); reflexivity.
Qed.

Lemma clean_name_canonical (name : str) :
  clean_name name = Spec.canonical_name_spaces name.
Proof.
  unfold clean_name, Spec.canonical_name_spaces.
  now rewrite re_sub_special_filter, replace_space_map.
Qed.

(** What [strip] removes and what it leaves: the string is the result
    between two runs of whitespace, and the result neither starts nor
    ends with whitespace. *)
Lemma lstrip_split (s : str) :
  exists l, s = l ++ lstrip s /\ forallb isspace l = true.
Proof.
  induction s as [|c s (l & E & Hl)]; [now exists []|].
  simpl. destruct (isspace c) eqn:Hc.
  - exists (c :: l). split; [simpl; congruence | simpl; now rewrite Hc].
  - now exists [].
Qed.

Lemma lstrip_head (s : str) :
  match lstrip s with [] => True | c :: _ => isspace c = false end.
Proof.
  induction s as [|c s IH]; simpl; [exact I|].
  destruct (isspace c) eqn:Hc; [exact IH | exact Hc].
Qed.

Lemma lstrip_fixed (s : str) :
  match s with [] => True | c :: _ => isspace c = false end -> lstrip s = s.
Proof. destruct s as [|c s]; simpl; [reflexivity|]. now intros ->. Qed.

Lemma strip_split (s : str) :
  exists l r, s = l ++ strip s ++ r /\
              forallb isspace l = true /\ forallb isspace r = true.
Proof.
  destruct (lstrip_split s) as (l & El & Hl).
  destruct (lstrip_split (rev (lstrip s))) as (r & Er & Hr).
  exists l, (rev r). repeat split; [|exact Hl|].
  - unfold strip, rstrip. rewrite <- rev_app_distr, <- Er, rev_involutive. exact El.
  - rewrite forallb_forall in *. intros x Hx. apply Hr. now apply in_rev.
Qed.

Lemma strip_ends (s : str) :
  match strip s with [] => True | c :: _ => isspace c = false end /\
  match rev (strip s) with [] => True | c :: _ => isspace c = false end.
Proof.
  split.
  - unfold strip, rstrip.
    pose proof (lstrip_head s) as Hh.
    destruct (lstrip_split (rev (lstrip s))) as (r & Er & Hr).
    apply (f_equal (@rev char)) in Er. rewrite rev_involutive, rev_app_distr in Er.
    destruct (rev (lstrip (rev (lstrip s)))) as [|c t] eqn:E; [exact I|].
    rewrite Er in Hh. exact Hh.
  - unfold strip, rstrip. rewrite rev_involutive. apply lstrip_head.
Qed.

Lemma word_char_bounds (c : char) :
  Spec.word_char c = true -> (48 <= c <= 122)%N.
Proof.
  unfold Spec.word_char, in_range. intros H.
  repeat (apply orb_true_iff in H; destruct H as [H|H]);
    try (apply andb_true_iff in H; destruct H as [H1 H2];
         apply N.leb_le in H1; apply N.leb_le in H2; lia).
  apply N.eqb_eq in H. lia.
Qed.

Lemma in_range_outside (lo hi c : N) :
  (c < lo \/ hi < c)%N -> in_range lo hi c = false.
Proof.
  intros H. unfold in_range. apply andb_false_iff.
  destruct H; [left | right]; apply N.leb_gt; assumption.
Qed.

Lemma word_char_not_space (c : char) :
  Spec.word_char c = true -> isspace c = false.
Proof.
  intros H. apply word_char_bounds in H. unfold isspace.
  rewrite !in_range_outside by lia.
  repeat match goal with
         | |- context [N.eqb c ?n] => replace (N.eqb c n) with false
             by (symmetry; apply N.eqb_neq; lia)
         end.
  reflexivity.
Qed.

Lemma filter_all {A} (f : A -> bool) (l : list A) :
  Forall (fun x => f x = true) l -> List.filter f l = l.
Proof.
  induction 1 as [|x l Hx _ IH]; simpl; [reflexivity|]. now rewrite Hx, IH.
Qed.

Lemma canonical_name_spaces_word (name : str) :
  Forall (fun c => Spec.word_char c = true) (Spec.canonical_name_spaces name).
Proof.
  unfold Spec.canonical_name_spaces. apply Forall_forall.
  intros c Hc. now apply filter_In in Hc.
Qed.

Lemma strip_word (w : str) :
  Forall (fun c => Spec.word_char c = true) w -> strip w = w.
Proof.
  intros Hw. unfold strip, rstrip.
  assert (Hl : forall u, Forall (fun c => Spec.word_char c = true) u -> lstrip u = u).
  { intros u Hu. apply lstrip_fixed. destruct Hu; [exact I|].
    now apply word_char_not_space. }
  rewrite (Hl w Hw), Hl, rev_involutive; [reflexivity|].
  apply Forall_rev. exact Hw.
Qed.

(** A label made of word characters is its own canonical form. *)
Lemma clean_name_word (w : str) :
  Forall (fun c => Spec.word_char c = true) w -> clean_name w = w.
Proof.
  intros Hw. rewrite clean_name_canonical. unfold Spec.canonical_name_spaces.
  rewrite (strip_word w Hw).
  replace (List.map _ w) with w; [now apply filter_all|].
  induction Hw as [|c w Hc _ IH]; [reflexivity|].
  cbn [List.map]. rewrite <- IH.
  apply word_char_bounds in Hc.
  replace (N.eqb c Spec.space) with false; [reflexivity|].
  symmetry. apply N.eqb_neq. unfold Spec.space. lia.
Qed.

Lemma clean_name_idempotent (name : str) :
  clean_name (clean_name name) = clean_name name.
Proof.
  apply clean_name_word. rewrite clean_name_canonical.
  apply canonical_name_spaces_word.
Qed.

(** The wording of section 4.1 and the program agree on every label
    whose whitespace, once trimmed, consists of space characters. *)
Lemma clean_name_agrees_on_spaces (name : str) :
  (forall c, In c (strip name) -> isspace c = true -> c = Spec.space) ->
  clean_name name = Spec.canonical_name name.
Proof.
  intros H. rewrite clean_name_canonical.
  unfold Spec.canonical_name_spaces, Spec.canonical_name. f_equal.
  apply map_ext_in. intros c Hc.
  destruct (isspace c) eqn:Hs.
  - rewrite (H c Hc Hs). reflexivity.
  - destruct (N.eqb_spec c Spec.space) as [->|_]; [discriminate Hs | reflexivity].
Qed.

(** The claim C8 fails on a label with an interior tab: the wording
    asks for an underscore, the program drops the tab. *)
Lemma clean_name_drops_tab :
  Spec.canonical_name Data.tabbed_name = lit "a_b" /\
  clean_name Data.tabbed_name = lit "ab" /\
  clean_name Data.tabbed_name <> Spec.canonical_name Data.tabbed_name.
Proof.
  repeat split; try (vm_compute; reflexivity).
  vm_compute. discriminate.
Qed.

(** C8, amended. Every label is rewritten to the string obtained by
    trimming surrounding whitespace, replacing each remaining space
    character (U+0020) with an underscore and removing every other
    character outside [A-Za-z0-9_] (so an interior tab or newline is
    removed, not replaced); the result holds word characters only; row
    labels and column values are unchanged. *)
Theorem clean_columns_canonical (df : DataFrame) :
  columns (clean_columns df) = List.map Spec.canonical_name_spaces (columns df) /\
  Forall (Forall (fun c => Spec.word_char c = true)) (columns (clean_columns df)) /\
  List.map snd (data (clean_columns df)) = List.map snd (data df) /\
  index (clean_columns df) = index df.
Proof.
  unfold columns, clean_columns; simpl. rewrite !map_map; simpl.
  repeat split.
  - apply map_ext. intros nc. apply clean_name_canonical.
  - apply Forall_forall. intros n Hn. apply in_map_iff in Hn as (nc & <- & _).
    rewrite clean_name_canonical. apply canonical_name_spaces_word.
Qed.

(** ** The imputation loop *)

Section Labelled.
Variable n : str.
Variables l1 l2 : list (str * column).
Hypothesis Hl1 : ~ In n (List.map fst l1).
Hypothesis Hl2 : ~ In n (List.map fst l2).

Lemma filter_label_absent (l : list (str * column)) :
  ~ In n (List.map fst l) ->
  List.filter (fun nc => str_eqb (fst nc) n) l = [].
Proof.
  induction l as [|[k c] l IH]; simpl; [reflexivity|].
  intros H. rewrite str_eqb_neq by tauto. apply IH. tauto.
Qed.

Lemma set_label_absent (c' : column) (l : list (str * column)) :
  ~ In n (List.map fst l) ->
  List.map (fun nc => if str_eqb (fst nc) n then (fst nc, c') else nc) l = l.
Proof.
  induction l as [|[k c] l IH]; simpl; [reflexivity|].
  intros H. rewrite str_eqb_neq by tauto. rewrite IH by tauto. reflexivity.
Qed.

Lemma getitem_unique (idx : list nat) (c : column) :
  getitem {| index := idx; data := l1 ++ (n, c) :: l2 |} n = [c].
Proof.
  unfold getitem; simpl. rewrite filter_app; simpl.
  rewrite str_eqb_refl, !filter_label_absent by assumption. reflexivity.
Qed.

Lemma setitem_unique (idx : list nat) (c c' : column) :
  setitem {| index := idx; data := l1 ++ (n, c) :: l2 |} n c'
  = {| index := idx; data := l1 ++ (n, c') :: l2 |}.
Proof.
  unfold setitem; simpl. rewrite map_app; simpl.
  rewrite str_eqb_refl, !set_label_absent by assumption. reflexivity.
Qed.

(** One iteration on a label that occurs once imputes its column. *)
Lemma fill_missing_unique (idx : list nat) (c : column) :
  fill_missing {| index := idx; data := l1 ++ (n, c) :: l2 |} n
  = Ok {| index := idx; data := l1 ++ (n, Spec.impute_column c) :: l2 |}.
Proof.
  unfold fill_missing. rewrite getitem_unique.
  destruct c as [vals|vals]; simpl.
  - now rewrite setitem_unique.
  - destruct (mode vals); simpl; now rewrite setitem_unique.
Qed.
End Labelled.

Lemma imputed_pair_labels (l : list (str * column)) :
  List.map fst (List.map Spec.imputed_pair l) = List.map fst l.
Proof. rewrite map_map. reflexivity. Qed.

Lemma for_each_fill_missing (todo : list (str * column)) :
  forall (done : list (str * column)) (idx : list nat),
    NoDup (List.map fst (done ++ todo)) ->
    for_each fill_missing (List.map fst todo)
      {| index := idx; data := List.map Spec.imputed_pair done ++ todo |}
    = Ok {| index := idx; data := List.map Spec.imputed_pair (done ++ todo) |}.
Proof.
  induction todo as [|[n c] todo IH]; intros done idx Hnd.
  - simpl. now rewrite !app_nil_r.
  - cbn [List.map fst for_each].
    assert (Hn : ~ In n (List.map fst done ++ List.map fst todo)).
    { rewrite map_app in Hnd. apply NoDup_remove_2 in Hnd. exact Hnd. }
    rewrite fill_missing_unique.
    + cbn [bind].
      replace (List.map Spec.imputed_pair done ++ (n, Spec.impute_column c) :: todo)
        with (List.map Spec.imputed_pair (done ++ [(n, c)]) ++ todo)
        by (rewrite map_app, <- app_assoc; reflexivity).
      replace (done ++ (n, c) :: todo) with ((done ++ [(n, c)]) ++ todo)
        by (rewrite <- app_assoc; reflexivity).
      apply IH. rewrite <- app_assoc. exact Hnd.
    + rewrite imputed_pair_labels. intros H. apply Hn. apply in_or_app. now left.
    + intros H. apply Hn. apply in_or_app. now right.
Qed.

(** On a frame with unique labels the loop of lines 45-55 returns the
    frame with every column imputed. *)
Lemma handle_missing_impute (df : DataFrame) :
  NoDup (columns df) -> handle_missing df = Ok (Spec.impute df).
Proof.
  intros Hnd. destruct df as [idx cols]. unfold handle_missing, columns in *.
  simpl in *. exact (for_each_fill_missing cols [] idx Hnd).
Qed.

(** *** Repeated labels *)

Lemma getitem_length (df : DataFrame) (col : str) :
  List.length (getitem df col) = Spec.occurrences col (columns df).
Proof.
  unfold getitem, Spec.occurrences, columns. rewrite length_map.
  induction (data df) as [|[k c] l IH]; simpl; [reflexivity|].
  destruct (str_eqb k col); simpl; now rewrite IH.
Qed.

Lemma setitem_columns (df : DataFrame) (col : str) (c : column) :
  columns (setitem df col c) = columns df.
Proof.
  unfold columns, setitem; simpl. rewrite map_map. apply map_ext.
  intros [k c0]; simpl. now destruct (str_eqb k col).
Qed.

Lemma occurrences_pos (col : str) (labels : list str) :
  In col labels -> (1 <= Spec.occurrences col labels)%nat.
Proof.
  unfold Spec.occurrences. induction labels as [|k l IH]; simpl; [tauto|].
  intros [->|H].
  - rewrite str_eqb_refl. simpl. lia.
  - destruct (str_eqb k col); simpl; auto with arith.
Qed.

Lemma occurrences_absent (col : str) (labels : list str) :
  Spec.occurrences col labels = 0%nat -> ~ In col labels.
Proof. intros H Hin. apply occurrences_pos in Hin. lia. Qed.

Lemma occurrences_once_NoDup (labels : list str) :
  Forall (fun c => Spec.occurrences c labels = 1%nat) labels -> NoDup labels.
Proof.
  induction labels as [|k l IH]; intros H; constructor.
  - inversion_clear H as [|? ? Hk _]. unfold Spec.occurrences in Hk. simpl in Hk.
    rewrite str_eqb_refl in Hk. simpl in Hk. apply occurrences_absent.
    unfold Spec.occurrences. lia.
  - apply IH. inversion_clear H as [|? ? _ Hl].
    rewrite Forall_forall in *. intros c Hc. specialize (Hl c Hc).
    pose proof (occurrences_pos c l Hc) as Hpos.
    unfold Spec.occurrences in *. simpl in Hl.
    destruct (str_eqb k c); simpl in Hl; lia.
Qed.

(** The outcome of one iteration, by the number of columns that carry
    the label. *)
Lemma fill_missing_outcome (df : DataFrame) (col : str) :
  In col (columns df) ->
  match fill_missing df col with
  | Ok df' => columns df' = columns df /\ Spec.occurrences col (columns df) = 1%nat
  | Raise e => (e = AttributeError \/ e = ValueError) /\
               (2 <= Spec.occurrences col (columns df))%nat
  end.
Proof.
  intros Hin. apply occurrences_pos in Hin.
  rewrite <- getitem_length in *. unfold fill_missing.
  destruct (getitem df col) as [|c [|c2 rest]]; simpl in *.
  - lia.
  - destruct c as [vals|vals]; [|destruct (mode vals)]; simpl;
      (split; [apply setitem_columns | reflexivity]).
  - destruct c; destruct (str_eqb col (lit "dtype")); simpl; (split; [tauto | lia]).
Qed.

Lemma for_each_fill_missing_outcome (cols : list str) :
  forall df, incl cols (columns df) ->
  match for_each fill_missing cols df with
  | Ok df' => columns df' = columns df /\
              Forall (fun c => Spec.occurrences c (columns df) = 1%nat) cols
  | Raise e => (e = AttributeError \/ e = ValueError) /\
               Exists (fun c => 2 <= Spec.occurrences c (columns df))%nat cols
  end.
Proof.
  induction cols as [|col cols IH]; intros df Hincl; simpl.
  - split; [reflexivity | constructor].
  - pose proof (fill_missing_outcome df col (Hincl col (or_introl eq_refl))) as H1.
    destruct (fill_missing df col) as [df1|e]; simpl.
    + destruct H1 as [Hc Ho].
      assert (Hincl1 : incl cols (columns df1)).
      { rewrite Hc. intros x Hx. apply Hincl. now right. }
      specialize (IH df1 Hincl1). rewrite Hc in IH.
      destruct (for_each fill_missing cols df1) as [df2|e].
      * destruct IH as [Hc2 Hall]. split; [exact Hc2 | now constructor].
      * destruct IH as [He Hex]. split; [exact He | now apply Exists_cons_tl].
    + destruct H1 as [He Ho]. split; [exact He | now apply Exists_cons_hd].
Qed.

(** The loop raises as soon as a label is carried by two columns. *)
Lemma handle_missing_repeated (df : DataFrame) :
  ~ NoDup (columns df) ->
  handle_missing df = Raise AttributeError \/ handle_missing df = Raise ValueError.
Proof.
  intros Hdup. unfold handle_missing.
  pose proof (for_each_fill_missing_outcome (columns df) df (incl_refl _)) as H.
  destruct (for_each fill_missing (columns df) df) as [df'|e].
  - destruct H as [_ Hall]. apply occurrences_once_NoDup in Hall. contradiction.
  - destruct H as [[->| ->] _]; [now left | now right].
Qed.

(** One iteration on a label that two columns carry raises, and the
    label decides the exception. *)
Lemma fill_missing_repeated (df : DataFrame) (col : str) :
  (2 <= Spec.occurrences col (columns df))%nat ->
  fill_missing df col
  = Raise (if str_eqb col (lit "dtype") then ValueError else AttributeError).
Proof.
  rewrite <- getitem_length. unfold fill_missing.
  destruct (getitem df col) as [|c [|c2 rest]]; simpl; try lia.
  intros _. destruct c; now destruct (str_eqb col (lit "dtype")).
Qed.

Lemma fill_missing_once (df : DataFrame) (col : str) :
  Spec.occurrences col (columns df) = 1%nat ->
  exists df', fill_missing df col = Ok df' /\ columns df' = columns df.
Proof.
  rewrite <- getitem_length. unfold fill_missing.
  destruct (getitem df col) as [|c [|c2 rest]]; simpl; try discriminate.
  intros _.
  destruct c as [vals|vals]; [|destruct (mode vals)];
    eexists; (split; [reflexivity | apply setitem_columns]).
Qed.

(** The loop raises at the first label, in column order, that two
    columns carry. *)
Lemma for_each_fill_missing_first (cols : list str) (col : str) :
  forall df,
    incl cols (columns df) ->
    find (fun c => Nat.leb 2 (Spec.occurrences c (columns df))) cols = Some col ->
    for_each fill_missing cols df
    = Raise (if str_eqb col (lit "dtype") then ValueError else AttributeError).
Proof.
  induction cols as [|c cols IH]; intros df Hincl Hfind; [discriminate|].
  cbn [find for_each] in *.
  destruct (Nat.leb_spec 2 (Spec.occurrences c (columns df))) as [Hc|Hc].
  - injection Hfind as <-. now rewrite fill_missing_repeated.
  - pose proof (occurrences_pos c (columns df) (Hincl c (or_introl eq_refl))) as Hpos.
    destruct (fill_missing_once df c) as (df' & -> & Hcols); [lia|].
    cbn [bind]. apply IH; rewrite Hcols; [|exact Hfind].
    intros x Hx. apply Hincl. now right.
Qed.

Lemma handle_missing_first_repeated (df : DataFrame) (col : str) :
  Spec.first_repeated (columns df) = Some col ->
  handle_missing df
  = Raise (if str_eqb col (lit "dtype") then ValueError else AttributeError).
Proof. apply for_each_fill_missing_first, incl_refl. Qed.

(** Labels that are not distinct have a first repeated one. *)
Lemma first_repeated_exists (labels : list str) :
  ~ NoDup labels -> exists col, Spec.first_repeated labels = Some col.
Proof.
  intros Hdup. unfold Spec.first_repeated.
  destruct (find _ labels) as [col|] eqn:Ef; [now exists col|].
  exfalso. apply Hdup, occurrences_once_NoDup, Forall_forall. intros c Hc.
  pose proof (find_none _ _ Ef c Hc) as Hlt. cbv beta in Hlt.
  apply Nat.leb_gt in Hlt. pose proof (occurrences_pos c labels Hc). lia.
Qed.

(** *** Duplicate removal keeps labels *)

Lemma select_rows_columns (mask : list bool) (df : DataFrame) :
  columns (select_rows mask df) = columns df.
Proof. unfold columns, select_rows; simpl. rewrite map_map. reflexivity. Qed.

Lemma drop_duplicates_columns (df : DataFrame) :
  columns (drop_duplicates df) = columns df.
Proof.
  unfold drop_duplicates. destruct (empty df); [reflexivity|].
  apply select_rows_columns.
Qed.

Lemma clean_columns_columns (df : DataFrame) :
  columns (clean_columns df) = List.map clean_name (columns df).
Proof. unfold columns, clean_columns; simpl. now rewrite !map_map. Qed.

(** ** The cleaning stage *)

(** The claim C1 fails on a column [1, 1, 3, NaN]: before duplicate
    rows are removed its median is 1, but [clean_data] removes the
    second row first and fills the gap with 2, the median of what is
    left; cleaning in the order 1, 2, 3 gives another frame. *)
Lemma clean_data_not_in_spec_order :
  median [Some 1; Some 1; Some 3; None] = Some 1 /\
  (exists filled,
      clean_data Data.repeated_frame
      = Ok {| index := [0; 2; 3]%nat;
              data := [ (lit "x", Numeric [Some 1; Some 3; Some filled]) ] |} /\
      filled == 2) /\
  Spec.clean Data.repeated_frame
  = {| index := [0; 2]%nat; data := [ (lit "x", Numeric [Some 1; Some 3]) ] |} /\
  clean_data Data.repeated_frame <> Ok (Spec.clean Data.repeated_frame).
Proof.
  split; [vm_compute; reflexivity|].
  split; [eexists; split; vm_compute; reflexivity|].
  split; [vm_compute; reflexivity|].
  vm_compute. discriminate.
Qed.

(** C1, amended. The cleaning stage applies its steps in the order:
    label normalization, duplicate removal, imputation.  On every frame
    whose canonical labels are distinct, [clean_data] returns the
    deduplicated frame with each column imputed, so the median or mode
    that fills a column is computed over the rows that are left after
    duplicate rows have been removed. *)
Theorem clean_data_order (df : DataFrame) :
  NoDup (List.map clean_name (columns df)) ->
  clean_data df = Ok (Spec.impute (drop_duplicates (clean_columns df))).
Proof.
  intros Hnd. unfold clean_data. apply handle_missing_impute.
  now rewrite drop_duplicates_columns, clean_columns_columns.
Qed.

Lemma clean_data_order_witness :
  clean_data Data.staff_frame
  = Ok (Spec.impute (drop_duplicates (clean_columns Data.staff_frame))).
Proof.
  apply clean_data_order.
  vm_compute. repeat constructor; simpl; intuition discriminate.
Defined.

(** The claim C5 fails on two labels that differ by a space against an
    underscore: they are distinct, they collapse to the same canonical
    label, and [clean_data] raises AttributeError, not SchemaError. *)
Lemma collision_raises_no_schema_error :
  lit "a b" <> lit "a_b" /\
  clean_name (lit "a b") = clean_name (lit "a_b") /\
  columns (clean_columns Data.colliding_frame) = [lit "a_b"; lit "a_b"] /\
  clean_data Data.colliding_frame = Raise AttributeError /\
  clean_data Data.colliding_frame <> Raise SchemaError.
Proof.
  repeat split; try (vm_compute; reflexivity); vm_compute; discriminate.
Qed.

(** C5, amended. Label normalization itself never fails and merges
    nothing: every column is kept, with its values, under its canonical
    label, also when two labels collapse to the same one.  [clean_data]
    then succeeds when the canonical labels are distinct.  When they
    are not, there is a first canonical label, in column order, that
    two columns share, and the imputation loop raises at it: ValueError
    when that label is dtype, AttributeError for every other label.
    [clean_data] never raises SchemaError. *)
Theorem clean_data_collision (df : DataFrame) :
  (List.length (data (clean_columns df)) = List.length (data df) /\
   List.map snd (data (clean_columns df)) = List.map snd (data df)) /\
  (NoDup (List.map clean_name (columns df)) ->
   exists df', clean_data df = Ok df') /\
  (~ NoDup (List.map clean_name (columns df)) ->
   exists col, Spec.first_repeated (List.map clean_name (columns df)) = Some col) /\
  (forall col,
      Spec.first_repeated (List.map clean_name (columns df)) = Some col ->
      (col = lit "dtype" -> clean_data df = Raise ValueError) /\
      (col <> lit "dtype" -> clean_data df = Raise AttributeError)) /\
  clean_data df <> Raise SchemaError.
Proof.
  assert (Hfirst : forall col,
             Spec.first_repeated (List.map clean_name (columns df)) = Some col ->
             clean_data df
             = Raise (if str_eqb col (lit "dtype") then ValueError else AttributeError)).
  { intros col H. unfold clean_data. apply handle_missing_first_repeated.
    now rewrite drop_duplicates_columns, clean_columns_columns. }
  assert (Hok : NoDup (List.map clean_name (columns df)) ->
                exists df', clean_data df = Ok df').
  { intros H. eexists. unfold clean_data. apply handle_missing_impute.
    now rewrite drop_duplicates_columns, clean_columns_columns. }
  split; [|split; [exact Hok|split; [apply first_repeated_exists|split]]].
  - split; unfold clean_columns; simpl; [apply length_map|].
    rewrite map_map. reflexivity.
  - intros col H. rewrite (Hfirst col H). split.
    + intros ->. now rewrite str_eqb_refl.
    + intros Hne. now rewrite str_eqb_neq.
  - destruct (ListDec.NoDup_dec str_eq_dec (List.map clean_name (columns df)))
      as [H|H].
    + destruct (Hok H) as [df' ->]. discriminate.
    + destruct (first_repeated_exists _ H) as [col Hcol].
      rewrite (Hfirst col Hcol). now destruct (str_eqb col (lit "dtype")).
Qed.

Lemma clean_data_collision_witness :
  (exists df', clean_data Data.staff_frame = Ok df') /\
  Spec.first_repeated (List.map clean_name (columns Data.colliding_frame))
  = Some (lit "a_b") /\
  clean_data Data.colliding_frame = Raise AttributeError /\
  Spec.first_repeated (List.map clean_name (columns Data.dtype_frame))
  = Some (lit "dtype") /\
  clean_data Data.dtype_frame = Raise ValueError.
Proof.
  split; [|split; [|split; [|split]]].
  - apply (proj1 (proj2 (clean_data_collision Data.staff_frame))).
    vm_compute. repeat constructor; simpl; intuition discriminate.
  - vm_compute. reflexivity.
  - apply (proj2 (proj2 (proj2 (clean_data_collision Data.colliding_frame))))
      with (col := lit "a_b").
    + vm_compute. reflexivity.
    + vm_compute. discriminate.
  - vm_compute. reflexivity.
  - apply (proj2 (proj2 (proj2 (clean_data_collision Data.dtype_frame))))
      with (col := lit "dtype").
    + vm_compute. reflexivity.
    + reflexivity.
Defined.

(** ** Imputation *)

Section SortFacts.
Context {A : Type} (leb : A -> A -> bool).

Lemma insert_sorted_perm (x : A) (l : list A) :
  Permutation (x :: l) (insert_sorted leb x l).
Proof.
  induction l as [|y l IH]; simpl; [reflexivity|].
  destruct (leb x y); [reflexivity|].
  rewrite perm_swap. now constructor.
Qed.

Lemma sort_perm (l : list A) : Permutation l (sort leb l).
Proof.
  induction l as [|x l IH]; simpl; [constructor|].
  rewrite <- insert_sorted_perm. now constructor.
Qed.

Lemma sort_length (l : list A) : List.length (sort leb l) = List.length l.
Proof. symmetry. apply Permutation_length, sort_perm. Qed.

Lemma sort_In (x : A) (l : list A) : In x (sort leb l) <-> In x l.
Proof.
  split; apply Permutation_in; [symmetry|]; apply sort_perm.
Qed.

Hypothesis leb_total : forall a b, leb a b = true \/ leb b a = true.

Lemma insert_sorted_sorted (x : A) (l : list A) :
  Sorted (fun a b => leb a b = true) l ->
  Sorted (fun a b => leb a b = true) (insert_sorted leb x l).
Proof.
  induction 1 as [|y l Hs IH Hhd]; simpl; [repeat constructor|].
  destruct (leb x y) eqn:E.
  - repeat constructor; assumption.
  - constructor; [exact IH|].
    destruct (leb_total x y) as [Hxy|Hyx]; [congruence|].
    destruct l as [|z l]; simpl; [now constructor|].
    inversion_clear Hhd. destruct (leb x z); now constructor.
Qed.

Lemma sort_sorted (l : list A) : Sorted (fun a b => leb a b = true) (sort leb l).
Proof.
  induction l as [|x l IH]; simpl; [constructor|].
  now apply insert_sorted_sorted.
Qed.
End SortFacts.

Lemma Qle_bool_total (a b : Q) : Qle_bool a b = true \/ Qle_bool b a = true.
Proof.
  destruct (Qlt_le_dec b a) as [H|H].
  - right. apply Qle_bool_iff. now apply Qlt_le_weak.
  - left. now apply Qle_bool_iff.
Qed.

(** The values that [median] and [quantile] index are the non-missing
    values in ascending order. *)
Lemma sorted_values (vals : list (option Q)) :
  Permutation (dropna vals) (sort Qle_bool (dropna vals)) /\
  Sorted (fun a b => a <= b) (sort Qle_bool (dropna vals)).
Proof.
  split; [apply sort_perm|].
  pose proof (sort_sorted Qle_bool Qle_bool_total (dropna vals)) as H.
  induction H as [|x l _ IH Hhd]; constructor; [exact IH|].
  destruct Hhd; constructor. now apply Qle_bool_iff.
Qed.

Lemma median_none (vals : list (option Q)) :
  median vals = None <-> dropna vals = [].
Proof.
  unfold median. rewrite sort_length.
  destruct (dropna vals) as [|x xs]; simpl; [tauto|].
  split; [|discriminate].
  destruct (Nat.odd (S (List.length xs))); discriminate.
Qed.

Lemma fillna_filled {A} (value : option A) (vals : list (option A)) :
  Spec.filled_with value vals (fillna value vals).
Proof.
  unfold Spec.filled_with, fillna.
  induction vals as [|[x|] vals IH]; simpl; constructor; auto.
Qed.

Lemma fillna_none {A} (vals : list (option A)) : fillna None vals = vals.
Proof.
  unfold fillna. induction vals as [|[x|] vals IH]; simpl; congruence.
Qed.

Lemma fillna_complete {A} (value : option A) (vals : list (option A)) :
  isnull_sum vals = 0%nat -> fillna value vals = vals.
Proof.
  unfold isnull_sum, fillna.
  induction vals as [|[x|] vals IH]; simpl; intros H;
    [reflexivity | now rewrite IH | discriminate].
Qed.

Lemma isnull_sum_fillna {A} (x : A) (vals : list (option A)) :
  isnull_sum (fillna (Some x) vals) = 0%nat.
Proof.
  unfold isnull_sum, fillna. induction vals as [|[y|] vals IH]; simpl; auto.
Qed.

(** *** The mode *)

Lemma max_attained {A} (f : A -> nat) (l : list A) :
  l <> [] -> exists x, In x l /\ f x = fold_right Nat.max 0%nat (List.map f l).
Proof.
  induction l as [|a l IH]; [congruence|]. intros _.
  destruct l as [|b l].
  - exists a. simpl. split; [now left | lia].
  - destruct IH as (x & Hx & Ex); [discriminate|].
    cbn [List.map fold_right] in *.
    destruct (Nat.max_dec (f a) (Nat.max (f b) (fold_right Nat.max 0%nat (List.map f l))))
      as [E|E]; rewrite E.
    + exists a. split; [now left | reflexivity].
    + exists x. split; [now right | exact Ex].
Qed.

Lemma max_bound {A} (f : A -> nat) (l : list A) (x : A) :
  In x l -> (f x <= fold_right Nat.max 0%nat (List.map f l))%nat.
Proof.
  induction l as [|a l IH]; simpl; [tauto|].
  intros [->|H]; [lia|]. specialize (IH H). lia.
Qed.

Lemma count_str_bound (y : str) (xs : list str) :
  (count_str y xs <= max_count xs)%nat.
Proof.
  unfold max_count.
  destruct (in_dec str_eq_dec y xs) as [Hin|Hout].
  - exact (max_bound (fun x => count_str x xs) xs y Hin).
  - replace (count_str y xs) with 0%nat; [lia|].
    unfold count_str. symmetry.
    induction xs as [|x xs IH]; simpl; [reflexivity|].
    rewrite str_eqb_neq; [apply IH|]; firstorder.
Qed.

Lemma unique_In (x : str) (l : list str) : In x (unique l) <-> In x l.
Proof.
  induction l as [|a l IH]; simpl; [tauto|].
  rewrite filter_In, IH. cbv beta. split.
  - intros [->|[H _]]; auto.
  - intros [->|H]; [now left|].
    destruct (str_eqb a x) eqn:E.
    + apply str_eqb_eq in E. now left.
    + right. now split.
Qed.

Lemma mode_In (m : str) (vals : list (option str)) :
  In m (mode vals) <->
  In m (dropna vals) /\ count_str m (dropna vals) = max_count (dropna vals).
Proof.
  unfold mode. rewrite sort_In, unique_In, filter_In, Nat.eqb_eq. reflexivity.
Qed.

(** Every value that [mode] returns is a most frequent one. *)
Lemma mode_is_mode (m : str) (vals : list (option str)) :
  In m (mode vals) -> Spec.is_mode m vals.
Proof.
  intros H. apply mode_In in H as [Hin Hmax]. split; [exact Hin|].
  intros y. rewrite Hmax. apply count_str_bound.
Qed.

Lemma mode_nil (vals : list (option str)) :
  mode vals = [] <-> dropna vals = [].
Proof.
  split; intros H.
  - destruct (dropna vals) as [|x xs] eqn:E; [reflexivity|].
    destruct (max_attained (fun y => count_str y (x :: xs)) (x :: xs))
      as (y & Hy & Ey); [discriminate|].
    assert (Hm : In y (mode vals)).
    { apply mode_In. rewrite E. split; [exact Hy | exact Ey]. }
    rewrite H in Hm. destruct Hm.
  - unfold mode. now rewrite H.
Qed.

Lemma impute_column_imputed (c : column) : Spec.imputed c (Spec.impute_column c).
Proof.
  destruct c as [vals|vals]; simpl.
  - split; [apply fillna_filled|]. split; [apply median_none|]. split.
    + intros Hne. destruct (median vals) as [m|] eqn:E.
      * apply isnull_sum_fillna.
      * apply median_none in E. contradiction.
    + intros He. apply median_none in He. rewrite He. apply fillna_none.
  - split; [|apply isnull_sum_fillna].
    exists (hd (lit "Unknown") (mode vals)).
    split; [apply fillna_filled|]. split.
    + intros Hne. destruct (mode vals) as [|m rest] eqn:E.
      * apply mode_nil in E. contradiction.
      * apply mode_is_mode. rewrite E. now left.
    + intros He. apply mode_nil in He. now rewrite He.
Qed.

(** C4. On every frame with unique labels the imputation loop returns
    a frame with the same row labels and column labels in which each
    column is the imputed form of the original: present entries are
    kept; in a numeric column the missing entries hold the median of
    the non-missing values and the column has no missing entry left,
    unless it is entirely missing, in which case it is returned as it
    is; in a categorical column the missing entries hold a most
    frequent value, or "Unknown" when the column is entirely missing,
    and no entry is left missing. *)
Theorem handle_missing_imputes (df : DataFrame) :
  NoDup (columns df) ->
  exists df',
    handle_missing df = Ok df' /\
    index df' = index df /\
    columns df' = columns df /\
    Forall2 Spec.imputed (List.map snd (data df)) (List.map snd (data df')).
Proof.
  intros Hnd. exists (Spec.impute df).
  split; [now apply handle_missing_impute|].
  split; [reflexivity|].
  split; [apply imputed_pair_labels|].
  unfold Spec.impute; simpl.
  induction (data df) as [|[k c] l IH]; simpl; constructor;
    [apply impute_column_imputed | exact IH].
Qed.

Lemma handle_missing_imputes_witness :
  exists df',
    handle_missing Data.staff_frame = Ok df' /\
    index df' = index Data.staff_frame /\
    columns df' = columns Data.staff_frame /\
    Forall2 Spec.imputed (List.map snd (data Data.staff_frame))
      (List.map snd (data df')).
Proof.
  apply handle_missing_imputes.
  vm_compute. repeat constructor; simpl; intuition discriminate.
Defined.

(** On the frame of the cleaning test: the repeated row goes, the
    missing name becomes the first of the equally frequent names and
    the missing age the median 29 of the four ages left. *)
Example clean_data_staff_frame :
  exists age,
    clean_data Data.staff_frame
    = Ok {| index := [0; 1; 3; 4; 5]%nat;
            data :=
              [ (lit "Name", Object [Some (lit "John"); Some (lit "Jane");
                                     Some (lit "Mike"); Some (lit "Sarah");
                                     Some (lit "Jane")]);
                (lit "Age", Numeric [Some 25; Some 30; Some 35; Some 28; Some age]);
                (lit "Salary", Numeric (Data.ints [50000; 60000; 70000; 55000; 65000]%Z));
                (lit "Department", Object [Some (lit "IT"); Some (lit "HR");
                                           Some (lit "Sales"); Some (lit "IT");
                                           Some (lit "Marketing")]) ] |} /\
    age == 29.
Proof. eexists. split; vm_compute; reflexivity. Qed.

(** ** Cleaning twice *)

Lemma isnull_sum_cons {A} (v : option A) (vals : list (option A)) :
  isnull_sum (v :: vals) = 0%nat <-> v <> None /\ isnull_sum vals = 0%nat.
Proof.
  unfold isnull_sum. destruct v; simpl; split.
  - intros H. split; [discriminate | exact H].
  - tauto.
  - discriminate.
  - intros [H _]. congruence.
Qed.

Lemma select_complete {A} (mask : list bool) (vals : list (option A)) :
  isnull_sum vals = 0%nat -> isnull_sum (select mask vals) = 0%nat.
Proof.
  revert mask. induction vals as [|v vals IH]; intros [|b mask] H; try reflexivity.
  apply isnull_sum_cons in H as [Hv H]. simpl. destruct b; [|now apply IH].
  apply isnull_sum_cons. split; [exact Hv | now apply IH].
Qed.

Lemma select_all_missing {A} (mask : list bool) (vals : list (option A)) :
  dropna vals = [] -> dropna (select mask vals) = [].
Proof.
  revert mask. induction vals as [|[x|] vals IH]; intros [|b mask] H;
    try reflexivity; try discriminate.
  simpl in *. destruct b; simpl; now apply IH.
Qed.

Lemma impute_column_settled (c : column) : Spec.settled (Spec.impute_column c).
Proof.
  destruct c as [vals|vals]; simpl; [|apply isnull_sum_fillna].
  destruct (median vals) as [m|] eqn:E.
  - left. apply isnull_sum_fillna.
  - right. apply median_none in E. now rewrite fillna_none.
Qed.

Lemma select_column_settled (mask : list bool) (c : column) :
  Spec.settled c -> Spec.settled (select_column mask c).
Proof.
  destruct c as [vals|vals]; simpl.
  - intros [H|H]; [left; now apply select_complete | right; now apply select_all_missing].
  - apply select_complete.
Qed.

Lemma impute_column_fixed (c : column) :
  Spec.settled c -> Spec.impute_column c = c.
Proof.
  destruct c as [vals|vals]; simpl.
  - intros [H|H]; f_equal; [now apply fillna_complete|].
    apply median_none in H. rewrite H. apply fillna_none.
  - intros H. f_equal. now apply fillna_complete.
Qed.

Lemma impute_settled (df : DataFrame) : Spec.all_settled (Spec.impute df).
Proof.
  unfold Spec.all_settled, Spec.impute; simpl. apply Forall_forall.
  intros nc H. apply in_map_iff in H as (nc0 & <- & _).
  apply impute_column_settled.
Qed.

Lemma drop_duplicates_settled (df : DataFrame) :
  Spec.all_settled df -> Spec.all_settled (drop_duplicates df).
Proof.
  unfold drop_duplicates. destruct (empty df); [tauto|].
  unfold Spec.all_settled, select_rows; simpl. rewrite !Forall_forall.
  intros H nc Hnc. apply in_map_iff in Hnc as (nc0 & <- & Hin). simpl.
  apply select_column_settled. now apply H.
Qed.

Lemma impute_fixed (df : DataFrame) : Spec.all_settled df -> Spec.impute df = df.
Proof.
  destruct df as [idx cols]. unfold Spec.all_settled, Spec.impute; simpl.
  intros H. f_equal.
  induction H as [|[k c] l Hc _ IH]; simpl; [reflexivity|].
  unfold Spec.imputed_pair at 1; simpl in *.
  now rewrite (impute_column_fixed c Hc), IH.
Qed.

Lemma clean_columns_fixed (df : DataFrame) :
  Forall (Forall (fun c => Spec.word_char c = true)) (columns df) ->
  clean_columns df = df.
Proof.
  destruct df as [idx cols]. unfold clean_columns, columns; simpl.
  intros H. f_equal.
  induction cols as [|[k c] l IH]; simpl in *; [reflexivity|].
  inversion_clear H as [|? ? Hk Hl].
  now rewrite (clean_name_word k Hk), IH.
Qed.

(** What a successful call of [clean_data] has returned. *)
Lemma clean_data_ok (df df1 : DataFrame) :
  clean_data df = Ok df1 ->
  NoDup (List.map clean_name (columns df)) /\
  df1 = Spec.impute (drop_duplicates (clean_columns df)).
Proof.
  intros H.
  destruct (ListDec.NoDup_dec str_eq_dec (List.map clean_name (columns df)))
    as [Hnd|Hdup].
  - split; [exact Hnd|].
    unfold clean_data in H. rewrite handle_missing_impute in H.
    + now injection H.
    + now rewrite drop_duplicates_columns, clean_columns_columns.
  - exfalso. unfold clean_data in H.
    destruct (handle_missing_repeated (drop_duplicates (clean_columns df))) as [E|E].
    + now rewrite drop_duplicates_columns, clean_columns_columns.
    + rewrite E in H. discriminate.
    + rewrite E in H. discriminate.
Qed.

(** The claim C6 fails on a column [1, NaN]: cleaning fills the gap
    with 1 and returns two equal rows; cleaning the result removes one
    of them. *)
Lemma clean_data_not_idempotent :
  clean_data Data.gap_frame
  = Ok {| index := [0; 1]%nat; data := [ (lit "x", Numeric [Some 1; Some 1]) ] |} /\
  (df1 <- clean_data Data.gap_frame ;; clean_data df1)
  = Ok {| index := [0]%nat; data := [ (lit "x", Numeric [Some 1]) ] |} /\
  (df1 <- clean_data Data.gap_frame ;; clean_data df1) <> clean_data Data.gap_frame.
Proof.
  repeat split; try (vm_compute; reflexivity). vm_compute. discriminate.
Qed.

(** C6, amended. Whenever [clean_data] returns a frame, cleaning that
    frame again succeeds and returns it with its duplicate rows removed
    (first occurrences kept): labels and values are not changed again.
    So cleaning twice gives the same frame as cleaning once exactly
    when the cleaned frame has no duplicate rows, which imputation can
    create. *)
Theorem clean_data_twice (df df1 : DataFrame) :
  clean_data df = Ok df1 ->
  clean_data df1 = Ok (drop_duplicates df1) /\
  (clean_data df1 = Ok df1 <-> drop_duplicates df1 = df1).
Proof.
  intros H. apply clean_data_ok in H as [Hnd ->].
  set (d := drop_duplicates (clean_columns df)).
  assert (Hcols : columns (Spec.impute d) = List.map clean_name (columns df)).
  { unfold Spec.impute, columns at 1; simpl. rewrite imputed_pair_labels.
    fold (columns d). unfold d.
    now rewrite drop_duplicates_columns, clean_columns_columns. }
  assert (Hfix : clean_columns (Spec.impute d) = Spec.impute d).
  { apply clean_columns_fixed. rewrite Hcols. apply Forall_forall.
    intros k Hk. apply in_map_iff in Hk as (k0 & <- & _).
    rewrite clean_name_canonical. apply canonical_name_spaces_word. }
  assert (E : clean_data (Spec.impute d) = Ok (drop_duplicates (Spec.impute d))).
  { unfold clean_data. rewrite Hfix, handle_missing_impute.
    - f_equal. apply impute_fixed, drop_duplicates_settled, impute_settled.
    - now rewrite drop_duplicates_columns, Hcols. }
  split; [exact E|]. rewrite E. split; [intros H; now injection H | now intros ->].
Qed.

Lemma clean_data_twice_witness :
  clean_data {| index := [0; 1]%nat; data := [ (lit "x", Numeric [Some 1; Some 1]) ] |}
  = Ok {| index := [0]%nat; data := [ (lit "x", Numeric [Some 1]) ] |}.
Proof.
  refine (proj1 (clean_data_twice Data.gap_frame _ _)).
  vm_compute. reflexivity.
Defined.

(** ** The outlier summary of the report *)

Lemma dict_set_fresh {V} (k : str) (v : V) (d : dict V) :
  ~ In k (List.map fst d) -> dict_set k v d = d ++ [(k, v)].
Proof.
  induction d as [|[k' v'] d IH]; simpl; [reflexivity|].
  intros H. rewrite str_eqb_neq by tauto. rewrite IH by tauto. reflexivity.
Qed.

Lemma Qofnat_pos (n : nat) : n <> 0%nat -> 0 < Qofnat n.
Proof.
  intros H. unfold Qofnat, Qlt; simpl. lia.
Qed.

Lemma for_each_summarize (df : DataFrame) (items : list (str * series)) :
  len df <> 0%nat ->
  forall acc,
    NoDup (List.map fst acc ++ List.map fst items) ->
    exists s,
      for_each (summarize df) items acc = Ok (acc ++ s) /\
      Forall2 (Spec.summarizes (len df)) items s.
Proof.
  intros Hn. induction items as [|[k o] items IH]; intros acc Hnd.
  - exists []. simpl. rewrite app_nil_r. split; [reflexivity | constructor].
  - cbn [for_each summarize]. unfold truediv.
    destruct (len df) as [|n'] eqn:En; [congruence|]. cbn [bind].
    cbn [List.map fst] in Hnd.
    rewrite dict_set_fresh.
    2:{ apply NoDup_remove_2 in Hnd. intros H. apply Hnd. apply in_or_app. now left. }
    destruct (IH (acc ++ [(k, {| count := List.length o;
                                 percentage := Qofnat (List.length o) / Qofnat (S n') * 100 |})]))
      as (s & Es & Hs).
    { rewrite map_app, <- app_assoc. exact Hnd. }
    eexists. rewrite Es, <- app_assoc. split; [reflexivity|].
    constructor; [|exact Hs].
    repeat split; simpl.
    pose proof (Qofnat_pos (S n') ltac:(discriminate)) as Hpos.
    field. intros H0. rewrite H0 in Hpos. now apply Qlt_irrefl in Hpos.
Qed.

Lemma for_each_summarize_no_rows (df : DataFrame) (items : list (str * series)) :
  len df = 0%nat -> items <> [] ->
  forall acc, for_each (summarize df) items acc = Raise ZeroDivisionError.
Proof.
  intros Hn Hne acc. destruct items as [|[k o] items]; [congruence|].
  cbn [for_each summarize]. unfold truediv. now rewrite Hn.
Qed.

(** The claim C7 fails on a frame without rows: the outlier map of its
    numeric column is an empty series, and the report raises
    ZeroDivisionError where the claim expects UndefinedStatisticError. *)
Lemma report_without_rows_raises_zero_division :
  len Data.no_rows = 0%nat /\
  detect_outliers Data.no_rows (lit "iqr") = Ok [ (lit "a", []) ] /\
  generate_eda_report Data.no_rows [ (lit "a", []) ] = Raise ZeroDivisionError /\
  generate_eda_report Data.no_rows [ (lit "a", []) ] <> Raise UndefinedStatisticError.
Proof.
  repeat split; try (vm_compute; reflexivity). vm_compute. discriminate.
Qed.

(** C7, amended. For an outlier map (a dictionary: its keys are
    distinct) over a frame of n rows, n not 0, the outlier summary has
    one entry per column of the map, in the same order, holding the
    count c of flagged values and a percentage equal to 100*c/n.  When
    the frame has no row and the map is not empty, the division raises
    ZeroDivisionError out of [generate_eda_report]; when the map is
    empty the summary is empty whatever the number of rows. *)
Theorem outlier_summary_percentage (df : DataFrame) (outliers : dict series) :
  NoDup (List.map fst outliers) ->
  (len df <> 0%nat ->
   exists s, outlier_summary df outliers = Ok s /\
             Forall2 (Spec.summarizes (len df)) outliers s) /\
  (len df = 0%nat -> outliers <> [] ->
   outlier_summary df outliers = Raise ZeroDivisionError /\
   generate_eda_report df outliers = Raise ZeroDivisionError) /\
  (outliers = [] -> outlier_summary df outliers = Ok []).
Proof.
  intros Hnd. repeat split.
  - intros Hn. destruct (for_each_summarize df outliers Hn [] Hnd) as (s & Es & Hs).
    exists s. split; [exact Es | exact Hs].
  - now apply for_each_summarize_no_rows.
  - unfold generate_eda_report. fold (outlier_summary df outliers).
    unfold outlier_summary. now rewrite for_each_summarize_no_rows.
  - now intros ->.
Qed.

Lemma outlier_summary_percentage_witness :
  (exists s,
      outlier_summary Data.outlier_frame
        [ (lit "Normal_Values", []); (lit "With_Outliers", [(9%nat, 100)]) ] = Ok s /\
      Forall2 (Spec.summarizes (len Data.outlier_frame))
        [ (lit "Normal_Values", []); (lit "With_Outliers", [(9%nat, 100)]) ] s) /\
  (outlier_summary Data.no_rows [ (lit "a", []) ] = Raise ZeroDivisionError /\
   generate_eda_report Data.no_rows [ (lit "a", []) ] = Raise ZeroDivisionError).
Proof.
  split.
  - apply (outlier_summary_percentage Data.outlier_frame).
    + vm_compute. repeat constructor; simpl; intuition discriminate.
    + vm_compute. discriminate.
  - apply (outlier_summary_percentage Data.no_rows).
    + vm_compute. repeat constructor; simpl; intuition.
    + reflexivity.
    + discriminate.
Defined.

(** ** Shape of the cleaned frame *)

Lemma select_length_le {A} (mask : list bool) (xs : list A) :
  (List.length (select mask xs) <= List.length xs)%nat.
Proof.
  revert xs. induction mask as [|b mask IH]; intros [|x xs]; simpl; try lia.
  specialize (IH xs). destruct b; simpl; lia.
Qed.

Lemma select_length_eq {A B} (mask : list bool) (xs : list A) (ys : list B) :
  List.length xs = List.length ys ->
  List.length (select mask xs) = List.length (select mask ys).
Proof.
  revert xs ys. induction mask as [|b mask IH]; intros [|x xs] [|y ys] H;
    simpl in *; try reflexivity; try discriminate.
  injection H as H. specialize (IH xs ys H). destruct b; simpl; lia.
Qed.

Lemma select_column_length (mask : list bool) (c : column) (idx : list nat) :
  column_length c = List.length idx ->
  column_length (select_column mask c) = List.length (select mask idx).
Proof. destruct c; simpl; apply select_length_eq. Qed.

(** Duplicate removal never adds a row and keeps the frame rectangular. *)
Lemma drop_duplicates_len (df : DataFrame) :
  (len (drop_duplicates df) <= len df)%nat.
Proof.
  unfold drop_duplicates. destruct (empty df); [lia|].
  unfold len, select_rows; simpl. apply select_length_le.
Qed.

Lemma drop_duplicates_well_formed (df : DataFrame) :
  Spec.well_formed df -> Spec.well_formed (drop_duplicates df).
Proof.
  unfold drop_duplicates. destruct (empty df); [tauto|].
  unfold Spec.well_formed, select_rows, len; simpl. rewrite !Forall_forall.
  intros H nc Hnc. apply in_map_iff in Hnc as (nc0 & <- & Hin). simpl.
  apply select_column_length. now apply H.
Qed.

Lemma impute_well_formed (df : DataFrame) :
  Spec.well_formed df -> Spec.well_formed (Spec.impute df).
Proof.
  unfold Spec.well_formed, Spec.impute, len; simpl. rewrite !Forall_forall.
  intros H nc Hnc. apply in_map_iff in Hnc as (nc0 & <- & Hin).
  specialize (H nc0 Hin). destruct nc0 as [k [vals|vals]]; simpl in *;
    unfold fillna; now rewrite length_map.
Qed.

Lemma clean_columns_well_formed (df : DataFrame) :
  Spec.well_formed df -> Spec.well_formed (clean_columns df).
Proof.
  unfold Spec.well_formed, clean_columns, len; simpl. rewrite !Forall_forall.
  intros H nc Hnc. apply in_map_iff in Hnc as (nc0 & <- & Hin). simpl.
  now apply H.
Qed.

(** A cleaned frame is rectangular, has no more rows than the input
    and as many columns, and leaves no gap except in numeric columns
    without any value. *)
Lemma clean_data_shape (df df1 : DataFrame) :
  Spec.well_formed df -> clean_data df = Ok df1 ->
  Spec.well_formed df1 /\
  (len df1 <= len df)%nat /\
  List.length (data df1) = List.length (data df) /\
  Spec.all_settled df1.
Proof.
  intros Hwf H. apply clean_data_ok in H as [_ ->].
  split; [now apply impute_well_formed, drop_duplicates_well_formed,
            clean_columns_well_formed|].
  split; [apply (drop_duplicates_len (clean_columns df))|].
  split; [|apply impute_settled].
  unfold Spec.impute; simpl. rewrite length_map.
  rewrite <- (length_map fst (data (drop_duplicates _))).
  fold (columns (drop_duplicates (clean_columns df))).
  rewrite drop_duplicates_columns, clean_columns_columns.
  unfold columns. now rewrite !length_map.
Qed.

(** ** The outlier map in general *)

(** A row is flagged exactly when its value is present and satisfies
    the test; it is reported with its label. *)
Lemma flagged_In (flag : Q -> bool) (idx : list nat) (vals : list (option Q))
    (i : nat) (x : Q) :
  In (i, x) (flagged flag idx vals) <->
  exists p, nth_error idx p = Some i /\ nth_error vals p = Some (Some x) /\
            flag x = true.
Proof.
  revert vals. induction idx as [|j idx IH]; intros vals.
  - simpl. split; [tauto|]. intros (p & Hp & _). destruct p; discriminate.
  - destruct vals as [|[y|] vals]; simpl.
    + split; [tauto|]. intros (p & _ & Hp & _). destruct p; discriminate.
    + destruct (flag y) eqn:Ef; [simpl|]; rewrite IH; split.
      * intros [E|(p & H)]; [injection E as <- <-; now exists 0%nat | now exists (S p)].
      * intros ([|p] & Hi & Hv & Hf); simpl in *;
          [left; congruence | right; now exists p].
      * intros (p & H). now exists (S p).
      * intros ([|p] & Hi & Hv & Hf); simpl in *; [congruence | now exists p].
    + rewrite IH. split.
      * intros (p & H). now exists (S p).
      * intros ([|p] & Hi & Hv & Hf); simpl in *; [discriminate | now exists p].
Qed.

(** The IQR rule flags the values strictly outside the bounds
    Q1 - 1.5 IQR and Q3 + 1.5 IQR, and no other. *)
Lemma iqr_outliers_In (idx : list nat) (vals : list (option Q)) (i : nat) (x : Q) :
  In (i, x) (iqr_outliers idx vals) <->
  exists p Q1 Q3,
    nth_error idx p = Some i /\ nth_error vals p = Some (Some x) /\
    quantile (1 # 4) vals = Some Q1 /\ quantile (3 # 4) vals = Some Q3 /\
    (x < Q1 - (3 # 2) * (Q3 - Q1) \/ Q3 + (3 # 2) * (Q3 - Q1) < x).
Proof.
  unfold iqr_outliers.
  destruct (quantile (1 # 4) vals) as [Q1|], (quantile (3 # 4) vals) as [Q3|];
    try (split; [intros [] | intros (p & a & b & _ & _ & Ha & Hb & _); discriminate]).
  cbv zeta. rewrite flagged_In. split.
  - intros (p & Hi & Hv & Hf). exists p, Q1, Q3. repeat split; try assumption.
    apply orb_true_iff in Hf. rewrite !Qlt_bool_iff in Hf. exact Hf.
  - intros (p & a & b & Hi & Hv & Ha & Hb & Hf).
    injection Ha as <-. injection Hb as <-.
    exists p. repeat split; try assumption.
    apply orb_true_iff. rewrite !Qlt_bool_iff. exact Hf.
Qed.

Lemma numeric_columns_NoDup (df : DataFrame) :
  NoDup (columns df) -> NoDup (numeric_columns df).
Proof.
  unfold columns, numeric_columns.
  induction (data df) as [|[k c] l IH]; simpl; intros H; [constructor|].
  inversion_clear H as [|? ? Hk Hl].
  destruct c; simpl; [|now apply IH].
  constructor; [|now apply IH].
  intros Hin. apply Hk. apply in_map_iff in Hin as (nc & E & Hnc).
  apply filter_In in Hnc as [Hnc _]. apply in_map_iff. now exists nc.
Qed.

(** On a frame with unique labels [df[col]] is the column labelled
    [col]. *)
Lemma numeric_column_unique (df : DataFrame) (col : str) (vals : list (option Q)) :
  NoDup (columns df) -> In (col, Numeric vals) (data df) ->
  numeric_column df col = vals.
Proof.
  intros Hnd Hin. destruct df as [idx cols]. unfold columns in Hnd; simpl in *.
  apply in_split in Hin as (l1 & l2 & ->).
  rewrite map_app in Hnd. simpl in Hnd. apply NoDup_remove_2 in Hnd.
  unfold numeric_column. rewrite getitem_unique; [reflexivity| |];
    intros H; apply Hnd; apply in_or_app; tauto.
Qed.

Lemma for_each_detect_iqr (df : DataFrame) (cols : list str) :
  forall acc,
    NoDup (List.map fst acc ++ cols) ->
    for_each (detect_column df (lit "iqr")) cols acc
    = Ok (acc ++ List.map (fun col => (col, iqr_outliers (index df) (numeric_column df col)))
                   cols).
Proof.
  induction cols as [|col cols IH]; intros acc Hnd; simpl.
  - now rewrite app_nil_r.
  - unfold detect_column at 1. simpl.
    rewrite dict_set_fresh.
    2:{ apply NoDup_remove_2 in Hnd. intros H. apply Hnd. apply in_or_app. now left. }
    rewrite IH; [now rewrite <- app_assoc|].
    rewrite map_app, <- app_assoc. exact Hnd.
Qed.

(** Under 'iqr' the outlier map has one entry per numeric column, in
    column order, holding the values the IQR rule flags. *)
Lemma detect_outliers_iqr (df : DataFrame) :
  NoDup (columns df) ->
  detect_outliers df (lit "iqr")
  = Ok (List.map (fun col => (col, iqr_outliers (index df) (numeric_column df col)))
          (numeric_columns df)).
Proof.
  intros Hnd. unfold detect_outliers.
  apply (for_each_detect_iqr df (numeric_columns df) []).
  now apply numeric_columns_NoDup.
Qed.

(** ** Worked values *)

Example median_odd : median [Some 3; None; Some 1; Some 2] = Some 2.
Proof. vm_compute. reflexivity. Qed.

Example median_even :
  exists m, median [Some 4; Some 1; Some 3; Some 2] = Some m /\ m == 5 # 2.
Proof. eexists. split; vm_compute; reflexivity. Qed.

Example median_all_missing : median [None; None] = None.
Proof. reflexivity. Qed.

Example mode_tie :
  mode [Some (lit "b"); None; Some (lit "a"); Some (lit "b"); Some (lit "a")]
  = [lit "a"; lit "b"].
Proof. vm_compute. reflexivity. Qed.

Example clean_name_example :
  clean_name (lit "  Unit Price ($) ") = lit "Unit_Price_".
Proof. vm_compute. reflexivity. Qed.

Example repeated_dtype_label :
  clean_data Data.dtype_frame = Raise ValueError.
Proof. vm_compute. reflexivity. Qed.

Example zscore_with_missing_value :
  detect_outliers {| index := [0; 1]%nat; data := [ (lit "x", Numeric [None; None]) ] |}
    (lit "zscore")
  = Raise IndexError.
Proof. vm_compute. reflexivity. Qed.

(** The pipeline of [analyze] on the frame of the cleaning test: the
    age 35 lies above the upper bound 33 and is reported under the row
    label 3 it had before duplicate removal. *)
Example staff_frame_report :
  exists df_clean outliers report,
    clean_data Data.staff_frame = Ok df_clean /\
    detect_outliers_default df_clean = Ok outliers /\
    generate_eda_report df_clean outliers = Ok report /\
    outliers = [ (lit "Age", [(3%nat, 35)]); (lit "Salary", []) ] /\
    shape report = (5%nat, 4%nat) /\
    List.map snd (missing_values report) = [0; 0; 0; 0]%nat /\
    List.map (fun e => count (snd e)) (report_outlier_summary report) = [1; 0]%nat.
Proof.
  do 3 eexists.
  split; [vm_compute; reflexivity|].
  split; [vm_compute; reflexivity|].
  split; [vm_compute; reflexivity|].
  repeat split; vm_compute; reflexivity.
Qed.

(** * Further properties of the program *)

(** ** File names *)

Lemma contains_In (c : char) (s : str) : contains c s = true <-> In c s.
Proof.
  unfold contains. rewrite existsb_exists. split.
  - intros (x & Hx & E). apply char_eqb_eq in E. now subst.
  - intros H. exists c. split; [exact H | now apply char_eqb_eq].
Qed.

Lemma partition_app (sep : char) (a b : str) :
  ~ In sep a -> partition sep (a ++ sep :: b) = Some (a, b).
Proof.
  induction a as [|c a IH]; simpl; intros H.
  - unfold char_eqb. now rewrite N.eqb_refl.
  - destruct (char_eqb c sep) eqn:E.
    + apply char_eqb_eq in E. tauto.
    + rewrite IH by tauto. reflexivity.
Qed.

Lemma partition_none (sep : char) (s : str) :
  ~ In sep s -> partition sep s = None.
Proof.
  induction s as [|c s IH]; simpl; intros H; [reflexivity|].
  destruct (char_eqb c sep) eqn:E.
  - apply char_eqb_eq in E. tauto.
  - rewrite IH by tauto. reflexivity.
Qed.

Lemma In_split_first (sep : char) (s : str) :
  In sep s -> exists a b, s = a ++ sep :: b /\ ~ In sep a.
Proof.
  induction s as [|c s IH]; simpl; [tauto|]. intros H.
  destruct (N.eq_dec c sep) as [->|Hne].
  - exists [], s. split; [reflexivity | tauto].
  - destruct H as [H|H]; [contradiction|].
    destruct (IH H) as (a & b & -> & Ha).
    exists (c :: a), b. split; [reflexivity|]. simpl. tauto.
Qed.

(** [rsplit] cuts at the last separator. *)
Lemma rsplit1_last (sep : char) (a b : str) :
  ~ In sep b -> rsplit1 sep (a ++ sep :: b) = [a; b].
Proof.
  intros Hb. unfold rsplit1.
  rewrite rev_app_distr. simpl. rewrite <- app_assoc. simpl.
  rewrite partition_app by (now rewrite <- in_rev).
  now rewrite !rev_involutive.
Qed.

Lemma rsplit1_absent (sep : char) (s : str) :
  ~ In sep s -> rsplit1 sep s = [s].
Proof.
  intros H. unfold rsplit1. rewrite partition_none; [reflexivity|].
  now rewrite <- in_rev.
Qed.

Lemma In_split_last (sep : char) (s : str) :
  In sep s -> exists a b, s = a ++ sep :: b /\ ~ In sep b.
Proof.
  intros H. apply in_rev in H. apply In_split_first in H as (a & b & E & Ha).
  exists (rev b), (rev a). split.
  - rewrite <- (rev_involutive s), E, rev_app_distr. simpl.
    now rewrite <- app_assoc.
  - now rewrite <- in_rev.
Qed.

(** A lowercase ASCII letter other than i and k comes from itself or
    from its capital, and from no other character. *)
Lemma lower_char_letter (c x : char) (rest out : str) :
  (97 <= x <= 122)%N -> x <> 105%N -> x <> 107%N ->
  lower_char c ++ rest = x :: out <->
  (c = x \/ c = (x - 32)%N) /\ rest = out.
Proof.
  intros Hx Hi Hk. unfold lower_char.
  destruct (in_range 65 90 c) eqn:Eu.
  - unfold in_range in Eu. apply andb_true_iff in Eu as [E1 E2].
    apply N.leb_le in E1. apply N.leb_le in E2. simpl. split.
    + intros [= E ->]. split; [right; lia | reflexivity].
    + intros [[->| ->] ->]; [lia|]. f_equal. lia.
  - assert (Hc : ~ (65 <= c <= 90)%N).
    { intros [H1 H2]. unfold in_range in Eu.
      apply N.leb_le in H1. apply N.leb_le in H2. rewrite H1, H2 in Eu.
      discriminate. }
    destruct (N.eqb_spec c 304) as [->|H304]; simpl.
    { split; [intros [= E _]; congruence | intros [[E|E] _]; lia]. }
    destruct (N.eqb_spec c 8490) as [->|H8490]; simpl.
    { split; [intros [= E _]; congruence | intros [[E|E] _]; lia]. }
    split.
    + intros [= -> ->]. now split; [left|].
    + intros [[->| ->] ->]; [reflexivity | lia].
Qed.

Lemma lower_nil (s : str) : lower s = [] <-> s = [].
Proof.
  split; [|now intros ->].
  destruct s as [|c s]; [reflexivity|]. unfold lower; simpl. unfold lower_char.
  destruct (in_range 65 90 c); [discriminate|].
  destruct (N.eqb c 304); [discriminate|].
  destruct (N.eqb c 8490); discriminate.
Qed.

Lemma lower_csv (ext : str) : lower ext = lit "csv" <-> Spec.is_csv ext.
Proof.
  change (lit "csv") with [99; 115; 118]%N. unfold Spec.is_csv. split.
  - destruct ext as [|c [|s [|v rest]]]; unfold lower; cbn [flat_map].
    + discriminate.
    + rewrite lower_char_letter by lia. intros [_ H]. discriminate.
    + rewrite lower_char_letter by lia. intros [_ H].
      rewrite lower_char_letter in H by lia. destruct H as [_ H]. discriminate.
    + rewrite lower_char_letter by lia. intros [Hc H].
      rewrite lower_char_letter in H by lia. destruct H as [Hs H].
      rewrite lower_char_letter in H by lia. destruct H as [Hv H].
      apply (lower_nil rest) in H. subst rest.
      exists c, s, v. repeat split; try reflexivity; simpl in *; lia.
  - intros (c & s & v & -> & Hc & Hs & Hv). unfold lower; cbn [flat_map].
    rewrite !lower_char_letter by lia.
    repeat split; try reflexivity; simpl; lia.
Qed.

Lemma is_csv_no_dot (ext : str) : Spec.is_csv ext -> ~ In 46%N ext.
Proof.
  intros (c & s & v & -> & Hc & Hs & Hv). simpl. lia.
Qed.

Lemma allowed_file_spec (name : str) :
  exists b, allowed_file name = Ok b /\
            (b = true <-> exists stem ext, name = stem ++ 46%N :: ext /\ Spec.is_csv ext).
Proof.
  unfold allowed_file. destruct (contains 46%N name) eqn:Ec.
  - apply contains_In in Ec. apply In_split_last in Ec as (a & b & -> & Hb).
    rewrite rsplit1_last by exact Hb. cbn [list_getitem nth_error bind].
    eexists. split; [reflexivity|].
    unfold ALLOWED_EXTENSIONS. cbn [existsb]. rewrite orb_false_r, str_eqb_eq, lower_csv.
    split.
    + intros H. now exists a, b.
    + intros (stem & ext & E & Hext).
      pose proof (is_csv_no_dot ext Hext) as Hd.
      apply (f_equal (rsplit1 46%N)) in E.
      rewrite !rsplit1_last in E by assumption.
      injection E as _ ->. exact Hext.
  - exists false. split; [reflexivity|]. split; [discriminate|].
    intros (stem & ext & -> & _).
    assert (H : contains 46%N (stem ++ 46%N :: ext) = true).
    { apply contains_In. apply in_or_app. right. now left. }
    congruence.
Qed.

(** ** Rows and duplicate removal *)

Lemma cell_at_cells (c : column) (i : nat) : cell_at c i = nth_error (Spec.cells c) i.
Proof. destruct c; simpl; now rewrite nth_error_map. Qed.

Lemma cells_select (mask : list bool) (c : column) :
  Spec.cells (select_column mask c) = select mask (Spec.cells c).
Proof.
  assert (H : forall A B (f : A -> B) m l, List.map f (select m l) = select m (List.map f l)).
  { intros A B f m. induction m as [|b m IH]; intros [|x l]; simpl; auto.
    destruct b; simpl; now rewrite IH. }
  destruct c; simpl; apply H.
Qed.

Lemma cells_length (c : column) : List.length (Spec.cells c) = column_length c.
Proof. destruct c; simpl; apply length_map. Qed.

Lemma rows_across (df : DataFrame) :
  Spec.rows df = Spec.across (List.map (fun nc => Spec.cells (snd nc)) (data df)) (len df).
Proof.
  unfold Spec.rows, Spec.across, row. apply map_ext. intros i.
  rewrite map_map. apply map_ext. intros nc. apply cell_at_cells.
Qed.

Lemma across_succ (L : list (list cell)) (n : nat) :
  Spec.across L (S n)
  = List.map (fun l => nth_error l 0) L :: Spec.across (List.map (@tl cell) L) n.
Proof.
  unfold Spec.across. rewrite <- cons_seq, <- seq_shift. cbn [List.map].
  f_equal. rewrite map_map. apply map_ext. intros i.
  rewrite map_map. apply map_ext. intros l.
  destruct l; [now destruct i | reflexivity].
Qed.

(** Selecting rows of a rectangular table selects its rows. *)
Lemma across_select (mask : list bool) :
  forall (L : list (list cell)) (idx : list nat),
    List.length idx = List.length mask ->
    Forall (fun l => List.length l = List.length mask) L ->
    Spec.across (List.map (select mask) L) (List.length (select mask idx))
    = select mask (Spec.across L (List.length mask)).
Proof.
  induction mask as [|b mask IH]; intros L idx Hidx HL.
  - destruct idx; [|discriminate]. reflexivity.
  - destruct idx as [|i idx]; [discriminate|]. injection Hidx as Hidx.
    assert (HL' : Forall (fun l => List.length l = List.length mask)
                    (List.map (@tl cell) L)).
    { rewrite Forall_forall in *. intros l Hl.
      apply in_map_iff in Hl as (l0 & <- & Hl0). specialize (HL l0 Hl0).
      destruct l0; simpl in *; [discriminate | lia]. }
    cbn [List.length]. rewrite across_succ.
    destruct b; cbn [select].
    + cbn [List.length]. rewrite across_succ. f_equal.
      * rewrite map_map. apply map_ext_in. intros l Hl.
        rewrite Forall_forall in HL. specialize (HL l Hl).
        destruct l; [discriminate HL | reflexivity].
      * rewrite <- (IH _ idx Hidx HL'). f_equal.
        rewrite !map_map. apply map_ext_in. intros l Hl.
        rewrite Forall_forall in HL. specialize (HL l Hl).
        destruct l; [discriminate HL | reflexivity].
    + rewrite <- (IH _ idx Hidx HL'). f_equal.
      rewrite map_map. apply map_ext. intros l.
      destruct l; [now destruct mask | reflexivity].
Qed.

Lemma duplicated_from_length (seen rs : list (list (option cell))) :
  List.length (duplicated_from seen rs) = List.length rs.
Proof.
  revert seen. induction rs as [|r rs IH]; intros seen; simpl; [reflexivity|].
  now rewrite IH.
Qed.

Lemma duplicated_length (df : DataFrame) : List.length (duplicated df) = len df.
Proof.
  unfold duplicated. now rewrite duplicated_from_length, length_map, length_seq.
Qed.

(** The rows of the deduplicated frame are the rows of the frame that
    are not marked as duplicates. *)
Lemma rows_drop_duplicates (df : DataFrame) :
  Spec.well_formed df -> empty df = false ->
  Spec.rows (drop_duplicates df) = Spec.kept [] (Spec.rows df).
Proof.
  intros Hwf He. unfold drop_duplicates. rewrite He.
  rewrite rows_across. unfold select_rows, len; simpl. rewrite map_map; simpl.
  set (mask := List.map negb (duplicated df)).
  assert (Hm : List.length mask = len df).
  { unfold mask. now rewrite length_map, duplicated_length. }
  replace (List.map (fun x => Spec.cells (select_column mask (snd x))) (data df))
    with (List.map (select mask) (List.map (fun nc => Spec.cells (snd nc)) (data df))).
  2:{ rewrite map_map. apply map_ext. intros nc. symmetry. apply cells_select. }
  rewrite across_select.
  - unfold Spec.kept. fold (Spec.rows df) in mask. rewrite Hm, <- rows_across.
    reflexivity.
  - now rewrite Hm.
  - unfold Spec.well_formed in Hwf. rewrite Forall_forall in *.
    intros l Hl. apply in_map_iff in Hl as (nc & <- & Hnc).
    rewrite cells_length, Hm. now apply Hwf.
Qed.

Lemma cell_eqb_refl (a : cell) : cell_eqb a a = true.
Proof.
  destruct a as [[x|]|[x|]]; simpl; try reflexivity.
  - apply Qeq_bool_iff. reflexivity.
  - apply str_eqb_refl.
Qed.

Lemma cell_eqb_trans (a b c : cell) :
  cell_eqb a b = true -> cell_eqb b c = true -> cell_eqb a c = true.
Proof.
  destruct a as [[x|]|[x|]], b as [[y|]|[y|]], c as [[z|]|[z|]]; simpl;
    try discriminate; try reflexivity.
  - rewrite !Qeq_bool_iff. intros H1 H2. now rewrite H1.
  - rewrite !str_eqb_eq. congruence.
Qed.

Lemma row_eqb_refl (r : list (option cell)) : row_eqb r r = true.
Proof.
  induction r as [|[a|] r IH]; simpl; [reflexivity| |exact IH].
  now rewrite cell_eqb_refl.
Qed.

Lemma row_eqb_trans (r1 r2 r3 : list (option cell)) :
  row_eqb r1 r2 = true -> row_eqb r2 r3 = true -> row_eqb r1 r3 = true.
Proof.
  revert r2 r3. induction r1 as [|a r1 IH]; intros [|b r2] [|c r3]; simpl;
    try discriminate; try reflexivity.
  rewrite !andb_true_iff. intros [Hab H12] [Hbc H23]. split; [|now apply (IH r2)].
  destruct a as [a|], b as [b|], c as [c|]; simpl in *; try discriminate;
    try reflexivity.
  now apply (cell_eqb_trans a b c).
Qed.

Lemma kept_cons (seen : list (list (option cell))) r rs :
  Spec.kept seen (r :: rs)
  = if existsb (row_eqb r) seen then Spec.kept (r :: seen) rs
    else r :: Spec.kept (r :: seen) rs.
Proof.
  unfold Spec.kept. simpl. now destruct (existsb (row_eqb r) seen).
Qed.

Lemma kept_incl (rs : list (list (option cell))) :
  forall seen r, In r (Spec.kept seen rs) -> In r rs.
Proof.
  induction rs as [|r0 rs IH]; intros seen r; [intros []|].
  rewrite kept_cons. destruct (existsb (row_eqb r0) seen).
  - intros H. right. now apply (IH (r0 :: seen)).
  - intros [->|H]; [now left | right; now apply (IH (r0 :: seen))].
Qed.

Lemma kept_unseen (rs : list (list (option cell))) :
  forall seen r, In r (Spec.kept seen rs) -> existsb (row_eqb r) seen = false.
Proof.
  induction rs as [|r0 rs IH]; intros seen r; [intros []|].
  rewrite kept_cons.
  assert (Hrest : In r (Spec.kept (r0 :: seen) rs) -> existsb (row_eqb r) seen = false).
  { intros H. apply IH in H. simpl in H. now apply orb_false_iff in H. }
  destruct (existsb (row_eqb r0) seen) eqn:E; [exact Hrest|].
  intros [<-|H]; [exact E | now apply Hrest].
Qed.

(** Among the rows that are kept no two are equal. *)
Lemma kept_distinct (rs : list (list (option cell))) :
  forall seen, Spec.distinct (Spec.kept seen rs).
Proof.
  induction rs as [|r0 rs IH]; intros seen; [exact I|].
  rewrite kept_cons. destruct (existsb (row_eqb r0) seen); [apply IH|].
  split; [|apply IH].
  intros r' H. apply kept_unseen in H. simpl in H.
  now apply orb_false_iff in H.
Qed.

(** A second pass over the kept rows marks none of them. *)
Lemma kept_unmarked (rs : list (list (option cell))) :
  forall seen seen',
    incl seen' seen ->
    duplicated_from seen' (Spec.kept seen rs)
    = List.map (fun _ => false) (Spec.kept seen rs).
Proof.
  induction rs as [|r0 rs IH]; intros seen seen' Hincl; [reflexivity|].
  rewrite kept_cons. destruct (existsb (row_eqb r0) seen) eqn:E.
  - apply IH. now apply incl_tl.
  - simpl. f_equal.
    + destruct (existsb (row_eqb r0) seen') eqn:E'; [|reflexivity].
      apply existsb_exists in E' as (s & Hs & Hrs).
      assert (existsb (row_eqb r0) seen = true)
        by (apply existsb_exists; exists s; auto).
      congruence.
    + apply IH. intros s [<-|Hs]; [now left | right; now apply Hincl].
Qed.

(** Every row equals one of the rows that are kept. *)
Lemma kept_cover (rs : list (list (option cell))) :
  forall seen K,
    (forall s, In s seen -> exists k, In k K /\ row_eqb s k = true) ->
    forall r, In r rs ->
              exists k, In k (K ++ Spec.kept seen rs) /\ row_eqb r k = true.
Proof.
  induction rs as [|r0 rs IH]; intros seen K Hseen r; [intros []|].
  rewrite kept_cons. destruct (existsb (row_eqb r0) seen) eqn:E.
  - apply existsb_exists in E as (s & Hs & Hr0s).
    destruct (Hseen s Hs) as (k0 & Hk0 & Hsk0).
    assert (Hseen' : forall s', In s' (r0 :: seen) ->
                                exists k, In k K /\ row_eqb s' k = true).
    { intros s' [<-|Hs']; [|now apply Hseen].
      exists k0. split; [exact Hk0 | now apply (row_eqb_trans r0 s k0)]. }
    intros [<-|Hr].
    + exists k0. split; [apply in_or_app; now left|].
      now apply (row_eqb_trans r0 s k0).
    + now apply (IH (r0 :: seen) K Hseen').
  - assert (Hseen' : forall s', In s' (r0 :: seen) ->
                                exists k, In k (K ++ [r0]) /\ row_eqb s' k = true).
    { intros s' [<-|Hs'].
      - exists r0. split; [apply in_or_app; right; now left | apply row_eqb_refl].
      - destruct (Hseen s' Hs') as (k & Hk & Hsk).
        exists k. split; [apply in_or_app; now left | exact Hsk]. }
    intros [<-|Hr].
    + exists r0. split; [apply in_or_app; right; now left | apply row_eqb_refl].
    + destruct (IH (r0 :: seen) (K ++ [r0]) Hseen' r Hr) as (k & Hk & Hrk).
      exists k. split; [|exact Hrk]. now rewrite <- app_assoc in Hk.
Qed.

Lemma select_all {A} (mask : list bool) (xs : list A) :
  Forall (fun b => b = true) mask -> (List.length xs <= List.length mask)%nat ->
  select mask xs = xs.
Proof.
  revert xs. induction mask as [|b mask IH]; intros [|x xs] H Hlen; simpl in *;
    try reflexivity; try lia.
  inversion_clear H as [|? ? Hb Hm]. subst b. f_equal. apply IH; [exact Hm | lia].
Qed.

Lemma select_rows_all (mask : list bool) (df : DataFrame) :
  Spec.well_formed df -> Forall (fun b => b = true) mask ->
  List.length mask = len df -> select_rows mask df = df.
Proof.
  intros Hwf Hm Hlen. destruct df as [idx cols].
  unfold select_rows, Spec.well_formed, len in *; simpl in *. f_equal.
  - apply select_all; [exact Hm | lia].
  - induction Hwf as [|[k c] l Hc _ IH]; simpl; [reflexivity|].
    rewrite IH. f_equal. f_equal. simpl in Hc.
    destruct c; simpl in *; f_equal; apply select_all; try exact Hm; lia.
Qed.

Lemma duplicated_rows (df : DataFrame) :
  duplicated df = duplicated_from [] (Spec.rows df).
Proof. reflexivity. Qed.

Lemma drop_duplicates_first (df : DataFrame) :
  empty df = false ->
  hd_error (index (drop_duplicates df)) = hd_error (index df) /\
  (1 <= len (drop_duplicates df))%nat.
Proof.
  intros He. unfold drop_duplicates. rewrite He.
  unfold select_rows, len, duplicated; simpl.
  destruct df as [[|i idx] cols]; [discriminate He|]. simpl.
  split; [reflexivity | lia].
Qed.

(** X2. After [drop_duplicates] no two rows of a rectangular frame with
    at least one column are equal. *)
Theorem drop_duplicates_distinct (df : DataFrame) :
  Spec.well_formed df -> data df <> [] ->
  Spec.distinct (Spec.rows (drop_duplicates df)).
Proof.
  intros Hwf Hcols. destruct (empty df) eqn:He.
  - unfold drop_duplicates. rewrite He. unfold empty in He.
    unfold Spec.rows, len. destruct (index df); [exact I|].
    destruct (data df); [congruence | discriminate].
  - rewrite rows_drop_duplicates by assumption. apply kept_distinct.
Qed.

Lemma drop_duplicates_distinct_witness :
  Spec.distinct (Spec.rows (drop_duplicates Data.staff_frame)).
Proof.
  apply drop_duplicates_distinct.
  - repeat constructor.
  - discriminate.
Defined.

Lemma drop_duplicates_twice (df : DataFrame) :
  Spec.well_formed df ->
  drop_duplicates (drop_duplicates df) = drop_duplicates df.
Proof.
  intros Hwf. destruct (empty df) eqn:He.
  { unfold drop_duplicates. now rewrite He, He. }
  pose proof (drop_duplicates_well_formed df Hwf) as Hwf'.
  pose proof (rows_drop_duplicates df Hwf He) as Hrows.
  set (d := drop_duplicates df) in *.
  unfold drop_duplicates at 1. destruct (empty d); [reflexivity|].
  apply select_rows_all; [exact Hwf'| |].
  - rewrite duplicated_rows, Hrows, kept_unmarked by apply incl_refl.
    rewrite map_map. apply Forall_forall. intros b Hb.
    apply in_map_iff in Hb as (r & <- & _). reflexivity.
  - now rewrite length_map, duplicated_length.
Qed.

(** X3. Removing duplicates twice is removing them once. *)
Theorem drop_duplicates_idempotent (df : DataFrame) :
  Spec.well_formed df ->
  drop_duplicates (drop_duplicates df) = drop_duplicates df.
Proof. exact (drop_duplicates_twice df). Qed.

Lemma drop_duplicates_idempotent_witness :
  drop_duplicates (drop_duplicates Data.staff_frame) = drop_duplicates Data.staff_frame.
Proof. apply drop_duplicates_idempotent. repeat constructor. Defined.

(** X4. Duplicate removal loses nothing but repetitions: every row of
    the frame equals a row of the result, every row of the result is a
    row of the frame, and the result has no more rows. *)
Theorem drop_duplicates_cover (df : DataFrame) :
  Spec.well_formed df ->
  (forall r, In r (Spec.rows df) ->
             exists r', In r' (Spec.rows (drop_duplicates df)) /\ row_eqb r r' = true) /\
  (forall r', In r' (Spec.rows (drop_duplicates df)) -> In r' (Spec.rows df)) /\
  (len (drop_duplicates df) <= len df)%nat.
Proof.
  intros Hwf. split; [|split; [|apply drop_duplicates_len]].
  - intros r Hr. destruct (empty df) eqn:He.
    + exists r. unfold drop_duplicates. rewrite He. split; [exact Hr | apply row_eqb_refl].
    + rewrite rows_drop_duplicates by assumption.
      apply (kept_cover (Spec.rows df) [] []); [intros s []| exact Hr].
  - intros r' Hr'. destruct (empty df) eqn:He.
    + unfold drop_duplicates in Hr'. now rewrite He in Hr'.
    + rewrite rows_drop_duplicates in Hr' by assumption.
      now apply kept_incl in Hr'.
Qed.

Lemma drop_duplicates_cover_witness :
  (forall r, In r (Spec.rows Data.staff_frame) ->
             exists r', In r' (Spec.rows (drop_duplicates Data.staff_frame)) /\
                        row_eqb r r' = true) /\
  (forall r', In r' (Spec.rows (drop_duplicates Data.staff_frame)) ->
              In r' (Spec.rows Data.staff_frame)) /\
  (len (drop_duplicates Data.staff_frame) <= len Data.staff_frame)%nat.
Proof. apply drop_duplicates_cover. repeat constructor. Defined.

(** ** More on the cleaning stage *)

Lemma handle_missing_ok (df df1 : DataFrame) :
  handle_missing df = Ok df1 -> NoDup (columns df) /\ df1 = Spec.impute df.
Proof.
  intros H.
  destruct (ListDec.NoDup_dec str_eq_dec (columns df)) as [Hnd|Hdup].
  - split; [exact Hnd|]. rewrite handle_missing_impute in H by exact Hnd.
    now injection H.
  - destruct (handle_missing_repeated df Hdup) as [E|E]; rewrite E in H; discriminate.
Qed.

Lemma impute_columns (df : DataFrame) : columns (Spec.impute df) = columns df.
Proof. unfold columns, Spec.impute; simpl. apply imputed_pair_labels. Qed.

(** X5. What the imputation loop returns it returns again: a second
    pass changes nothing. *)
Theorem handle_missing_idempotent (df df1 : DataFrame) :
  handle_missing df = Ok df1 -> handle_missing df1 = Ok df1.
Proof.
  intros H. apply handle_missing_ok in H as [Hnd ->].
  rewrite handle_missing_impute by (now rewrite impute_columns).
  f_equal. apply impute_fixed, impute_settled.
Qed.

Lemma handle_missing_idempotent_witness :
  handle_missing (Spec.impute Data.staff_frame) = Ok (Spec.impute Data.staff_frame).
Proof.
  apply (handle_missing_idempotent Data.staff_frame).
  vm_compute. reflexivity.
Defined.

Lemma clean_data_result_labels (df df1 : DataFrame) :
  clean_data df = Ok df1 ->
  columns df1 = List.map clean_name (columns df) /\
  NoDup (columns df1) /\
  Forall (Forall (fun c => Spec.word_char c = true)) (columns df1).
Proof.
  intros H. apply clean_data_ok in H as [Hnd ->].
  assert (E : columns (Spec.impute (drop_duplicates (clean_columns df)))
              = List.map clean_name (columns df)).
  { now rewrite impute_columns, drop_duplicates_columns, clean_columns_columns. }
  rewrite E. repeat split; [exact Hnd|].
  apply Forall_forall. intros k Hk. apply in_map_iff in Hk as (k0 & <- & _).
  rewrite clean_name_canonical. apply canonical_name_spaces_word.
Qed.

(** X6. A cleaned frame carries the canonical labels of the input, in
    order; they are distinct and made of the characters of
    [A-Za-z0-9_]. *)
Theorem clean_data_labels (df df1 : DataFrame) :
  clean_data df = Ok df1 ->
  columns df1 = List.map clean_name (columns df) /\
  NoDup (columns df1) /\
  Forall (Forall (fun c => Spec.word_char c = true)) (columns df1).
Proof. exact (clean_data_result_labels df df1). Qed.

Lemma clean_data_labels_witness :
  columns (Spec.impute (drop_duplicates (clean_columns Data.staff_frame)))
  = List.map clean_name (columns Data.staff_frame) /\
  NoDup (columns (Spec.impute (drop_duplicates (clean_columns Data.staff_frame)))) /\
  Forall (Forall (fun c => Spec.word_char c = true))
    (columns (Spec.impute (drop_duplicates (clean_columns Data.staff_frame)))).
Proof.
  apply (clean_data_labels Data.staff_frame). vm_compute. reflexivity.
Defined.

(** Cleaning a frame whose labels are canonical and distinct and whose
    columns are settled only removes its duplicate rows. *)
Lemma clean_data_settled (d : DataFrame) :
  NoDup (columns d) ->
  Forall (Forall (fun c => Spec.word_char c = true)) (columns d) ->
  Spec.all_settled d ->
  clean_data d = Ok (drop_duplicates d).
Proof.
  intros Hnd Hword Hset. unfold clean_data.
  rewrite (clean_columns_fixed d Hword).
  rewrite handle_missing_impute by (now rewrite drop_duplicates_columns).
  f_equal. now apply impute_fixed, drop_duplicates_settled.
Qed.

Lemma complete_settled (df : DataFrame) : Spec.complete df -> Spec.all_settled df.
Proof.
  unfold Spec.complete, Spec.all_settled. apply Forall_impl.
  intros [k [vals|vals]]; simpl; auto.
Qed.

Lemma clean_columns_complete (df : DataFrame) :
  Spec.complete df -> Spec.complete (clean_columns df).
Proof.
  unfold Spec.complete, clean_columns; simpl. rewrite !Forall_forall.
  intros H nc Hnc. apply in_map_iff in Hnc as (nc0 & <- & Hin). simpl. now apply H.
Qed.

Lemma drop_duplicates_complete (df : DataFrame) :
  Spec.complete df -> Spec.complete (drop_duplicates df).
Proof.
  unfold drop_duplicates. destruct (empty df); [tauto|].
  unfold Spec.complete, select_rows; simpl. rewrite !Forall_forall.
  intros H nc Hnc. apply in_map_iff in Hnc as (nc0 & <- & Hin). simpl.
  specialize (H nc0 Hin). destruct (snd nc0); simpl in *; now apply select_complete.
Qed.

(** X7. On a rectangular frame without a missing value cleaning only
    rewrites the labels and removes duplicate rows, and cleaning the
    result again returns it unchanged. *)
Theorem clean_data_complete (df df1 : DataFrame) :
  Spec.well_formed df -> Spec.complete df ->
  clean_data df = Ok df1 ->
  df1 = drop_duplicates (clean_columns df) /\ clean_data df1 = Ok df1.
Proof.
  intros Hwf Hc H.
  pose proof (clean_data_result_labels df df1 H) as (_ & Hnd & Hword).
  apply clean_data_ok in H as [_ ->].
  set (d := drop_duplicates (clean_columns df)) in *.
  assert (Hcd : Spec.complete d)
    by (now apply drop_duplicates_complete, clean_columns_complete).
  assert (E : Spec.impute d = d) by (now apply impute_fixed, complete_settled).
  rewrite E in *. split; [reflexivity|].
  rewrite clean_data_settled; try assumption; [|now apply complete_settled].
  f_equal. apply drop_duplicates_twice. now apply clean_columns_well_formed.
Qed.

Lemma clean_data_complete_witness :
  drop_duplicates (clean_columns Data.outlier_frame)
  = drop_duplicates (clean_columns Data.outlier_frame) /\
  clean_data (drop_duplicates (clean_columns Data.outlier_frame))
  = Ok (drop_duplicates (clean_columns Data.outlier_frame)).
Proof.
  apply (clean_data_complete Data.outlier_frame).
  - repeat constructor.
  - repeat constructor.
  - vm_compute. reflexivity.
Defined.

(** X8. Cleaning reaches a fixed point at the second pass: what the
    second cleaning returns, a third cleaning returns unchanged. *)
Theorem clean_data_settles (df df1 df2 : DataFrame) :
  Spec.well_formed df ->
  clean_data df = Ok df1 -> clean_data df1 = Ok df2 ->
  clean_data df2 = Ok df2.
Proof.
  intros Hwf H1 H2.
  pose proof (clean_data_result_labels df df1 H1) as (_ & Hnd & Hword).
  pose proof (clean_data_shape df df1 Hwf H1) as (Hwf1 & _ & _ & Hset).
  rewrite clean_data_settled in H2 by assumption. injection H2 as <-.
  rewrite clean_data_settled.
  - f_equal. now apply drop_duplicates_twice.
  - now rewrite drop_duplicates_columns.
  - now rewrite drop_duplicates_columns.
  - now apply drop_duplicates_settled.
Qed.

Lemma clean_data_settles_witness :
  clean_data {| index := [0]%nat; data := [ (lit "x", Numeric [Some 1]) ] |}
  = Ok {| index := [0]%nat; data := [ (lit "x", Numeric [Some 1]) ] |}.
Proof.
  apply (clean_data_settles Data.gap_frame
           {| index := [0; 1]%nat; data := [ (lit "x", Numeric [Some 1; Some 1]) ] |}).
  - repeat constructor.
  - vm_compute. reflexivity.
  - vm_compute. reflexivity.
Defined.

(** ** Quartiles *)

Lemma sorted_nth_le (xs : list Q) :
  Sorted (fun a b => a <= b) xs ->
  forall i j, (i <= j)%nat -> (j < List.length xs)%nat -> nth i xs 0 <= nth j xs 0.
Proof.
  intros Hs. apply Sorted_StronglySorted in Hs.
  2:{ intros a b c. apply Qle_trans. }
  induction Hs as [|x xs Hs IH Hall]; intros i j Hij Hj; simpl in Hj; [lia|].
  destruct j as [|j].
  - assert (i = 0%nat) by lia. subst. apply Qle_refl.
  - destruct i as [|i]; simpl.
    + rewrite Forall_forall in Hall. apply Hall. apply nth_In. lia.
    + apply IH; lia.
Qed.

Section Interpolation.
Variable xs : list Q.
Hypothesis Hsorted : Sorted (fun a b => a <= b) xs.
Variable pos : Q.
Hypothesis Hpos : 0 <= pos <= Qofnat (List.length xs - 1).
Hypothesis Hne : xs <> [].

Let lo := Z.to_nat (Qfloor pos).
Let hi := Nat.min (lo + 1) (List.length xs - 1).
Let frac := pos - inject_Z (Qfloor pos).

Lemma floor_position :
  (lo <= List.length xs - 1)%nat /\ inject_Z (Z.of_nat lo) == inject_Z (Qfloor pos).
Proof.
  destruct Hpos as [H0 H1].
  assert (Hf0 : (0 <= Qfloor pos)%Z).
  { change 0%Z with (Qfloor 0). now apply Qfloor_resp_le. }
  assert (Hf1 : (Qfloor pos <= Z.of_nat (List.length xs - 1))%Z).
  { rewrite <- (Qfloor_Z (Z.of_nat (List.length xs - 1))).
    now apply Qfloor_resp_le. }
  subst lo. split; [lia|]. now rewrite Z2Nat.id.
Qed.

Lemma frac_range : 0 <= frac < 1.
Proof.
  subst frac. pose proof (Qfloor_le pos). pose proof (Qlt_floor pos) as H1.
  rewrite inject_Z_plus in H1. change (inject_Z 1) with 1 in H1.
  split; Lqa.lra.
Qed.

(** The interpolated value lies between its two neighbours. *)
Lemma interpolation_between :
  nth lo xs 0 <= nth lo xs 0 + (nth hi xs 0 - nth lo xs 0) * frac <= nth hi xs 0.
Proof.
  pose proof floor_position as [Hlo _]. pose proof frac_range as [Hf0 Hf1].
  assert (Hlen : (0 < List.length xs)%nat) by (destruct xs; [congruence | simpl; lia]).
  assert (Hd : nth lo xs 0 <= nth hi xs 0).
  { apply sorted_nth_le; [exact Hsorted | subst hi; lia | subst hi; lia]. }
  set (a := nth lo xs 0) in *. set (b := nth hi xs 0) in *.
  assert (0 <= (b - a) * frac) by (apply Qmult_le_0_compat; Lqa.lra).
  assert ((b - a) * frac <= (b - a) * 1).
  { rewrite !(Qmult_comm (b - a)). apply Qmult_le_compat_r; Lqa.lra. }
  split; Lqa.lra.
Qed.
End Interpolation.

Lemma Qofnat_le (m n : nat) : (m <= n)%nat -> Qofnat m <= Qofnat n.
Proof. intros H. unfold Qofnat. rewrite <- Zle_Qle. lia. Qed.

Lemma position_range (k : nat) (q : Q) :
  0 <= q <= 1 -> 0 <= Qofnat k * q <= Qofnat k.
Proof.
  intros [H0 H1]. pose proof (Qofnat_nonneg k) as Hk. split.
  - now apply Qmult_le_0_compat.
  - rewrite <- (Qmult_1_r (Qofnat k)) at 2.
    rewrite !(Qmult_comm (Qofnat k)). now apply Qmult_le_compat_r.
Qed.

(** A quantile lies between the smallest and the largest non-missing
    value, and grows with its order. *)
Lemma quantile_mono (vals : list (option Q)) (q1 q2 a b : Q) :
  0 <= q1 -> q1 <= q2 -> q2 <= 1 ->
  quantile q1 vals = Some a -> quantile q2 vals = Some b -> a <= b.
Proof.
  intros H0 H12 H1. unfold quantile.
  pose proof (sorted_values vals) as [_ Hs].
  set (xs := sort Qle_bool (dropna vals)) in *.
  destruct (List.length xs) as [|k] eqn:En; [discriminate|].
  assert (Hne : xs <> []) by (intros E; rewrite E in En; discriminate).
  replace (S k - 1)%nat with k by lia.
  assert (Hk : k = (List.length xs - 1)%nat) by lia.
  cbv beta iota zeta. intros Ha Hb.
  apply (f_equal (fun o => match o with Some x => x | None => 0 end)) in Ha, Hb.
  cbv beta iota in Ha, Hb. subst a b.
  assert (Hp1 : 0 <= Qofnat k * q1 <= Qofnat (List.length xs - 1)).
  { rewrite <- Hk. apply position_range. split; [exact H0 | Lqa.lra]. }
  assert (Hp2 : 0 <= Qofnat k * q2 <= Qofnat (List.length xs - 1)).
  { rewrite <- Hk. apply position_range. split; [Lqa.lra | exact H1]. }
  assert (Hle : Qofnat k * q1 <= Qofnat k * q2).
  { rewrite !(Qmult_comm (Qofnat k)). apply Qmult_le_compat_r;
      [exact H12 | apply Qofnat_nonneg]. }
  pose proof (interpolation_between xs Hs _ Hp1 Hne) as I1.
  pose proof (interpolation_between xs Hs _ Hp2 Hne) as I2.
  pose proof (floor_position xs _ Hp1) as [L1 _].
  pose proof (floor_position xs _ Hp2) as [L2 _].
  cbv zeta in *. rewrite <- Hk in *.
  set (p1 := Qofnat k * q1) in *. set (p2 := Qofnat k * q2) in *.
  pose proof (Qfloor_resp_le _ _ Hle) as Hfl.
  assert (Hf1 : (0 <= Qfloor p1)%Z).
  { change 0%Z with (Qfloor 0). apply Qfloor_resp_le. apply Hp1. }
  destruct (Z.eq_dec (Qfloor p1) (Qfloor p2)) as [E|Hneq].
  - rewrite <- E in *.
    set (lo := Z.to_nat (Qfloor p1)) in *.
    assert (Hd : nth lo xs 0 <= nth (Nat.min (lo + 1) k) xs 0).
    { apply sorted_nth_le; [exact Hs | lia | lia]. }
    set (A := nth lo xs 0) in *. set (B := nth (Nat.min (lo + 1) k) xs 0) in *.
    assert ((B - A) * (p1 - inject_Z (Qfloor p1)) <= (B - A) * (p2 - inject_Z (Qfloor p1))).
    { rewrite !(Qmult_comm (B - A)). apply Qmult_le_compat_r; Lqa.lra. }
    Lqa.lra.
  - assert (Hlt : (Z.to_nat (Qfloor p1) < Z.to_nat (Qfloor p2))%nat) by lia.
    apply Qle_trans with (nth (Nat.min (Z.to_nat (Qfloor p1) + 1) k) xs 0);
      [apply I1|].
    apply Qle_trans with (nth (Z.to_nat (Qfloor p2)) xs 0); [|apply I2].
    apply sorted_nth_le; [exact Hs | lia | lia].
Qed.

Lemma quantile_range (vals : list (option Q)) (q a : Q) :
  0 <= q <= 1 -> quantile q vals = Some a ->
  exists lo hi, In lo (dropna vals) /\ In hi (dropna vals) /\ lo <= a <= hi.
Proof.
  intros Hq. unfold quantile.
  pose proof (sorted_values vals) as [_ Hs].
  assert (Hin : forall x, In x (sort Qle_bool (dropna vals)) -> In x (dropna vals))
    by (intros x; apply sort_In).
  set (xs := sort Qle_bool (dropna vals)) in *.
  destruct (List.length xs) as [|k] eqn:En; [discriminate|].
  assert (Hne : xs <> []) by (intros E; rewrite E in En; discriminate).
  replace (S k - 1)%nat with k by lia.
  assert (Hk : k = (List.length xs - 1)%nat) by lia.
  cbv beta iota zeta. intros Ha.
  apply (f_equal (fun o => match o with Some x => x | None => 0 end)) in Ha.
  cbv beta iota in Ha. subst a.
  assert (Hp : 0 <= Qofnat k * q <= Qofnat (List.length xs - 1)).
  { rewrite <- Hk. now apply position_range. }
  pose proof (interpolation_between xs Hs _ Hp Hne) as I1.
  pose proof (floor_position xs _ Hp) as [L1 _].
  cbv zeta in *. rewrite <- Hk in *.
  eexists. eexists. split; [|split; [|exact I1]]; apply Hin, nth_In; lia.
Qed.

Lemma nth_error_dropna {A} (vals : list (option A)) (p : nat) (x : A) :
  nth_error vals p = Some (Some x) -> In x (dropna vals).
Proof.
  revert p. induction vals as [|[y|] vals IH]; intros [|p] H; simpl in *;
    try discriminate.
  - left. congruence.
  - right. eauto.
  - eauto.
Qed.

(** X9. The quartiles are ordered, so the bounds of the IQR rule
    enclose them: a value between Q1 and Q3 is never flagged, and in a
    column whose non-missing values are all equal nothing is flagged. *)
Theorem iqr_outliers_outside_quartiles (idx : list nat) (vals : list (option Q)) :
  (forall Q1 Q3,
      quantile (1 # 4) vals = Some Q1 -> quantile (3 # 4) vals = Some Q3 ->
      Q1 <= Q3 /\
      forall i x, In (i, x) (iqr_outliers idx vals) -> x < Q1 \/ Q3 < x) /\
  ((forall x y, In x (dropna vals) -> In y (dropna vals) -> x == y) ->
   iqr_outliers idx vals = []).
Proof.
  assert (Hmono : forall Q1 Q3,
             quantile (1 # 4) vals = Some Q1 -> quantile (3 # 4) vals = Some Q3 ->
             Q1 <= Q3).
  { intros Q1 Q3 H1 H3.
    apply (quantile_mono vals (1 # 4) (3 # 4) Q1 Q3); try assumption;
      unfold Qle; simpl; lia. }
  split.
  - intros Q1 Q3 H1 H3. pose proof (Hmono Q1 Q3 H1 H3) as Hle.
    split; [exact Hle|]. intros i x Hin.
    apply iqr_outliers_In in Hin as (p & a & b & _ & _ & Ha & Hb & Hout).
    rewrite H1 in Ha. rewrite H3 in Hb. injection Ha as <-. injection Hb as <-.
    destruct Hout as [H|H]; [left | right]; Lqa.lra.
  - intros Hconst.
    destruct (iqr_outliers idx vals) as [|[i x] rest] eqn:E; [reflexivity|].
    exfalso.
    assert (Hin : In (i, x) (iqr_outliers idx vals)) by (rewrite E; now left).
    apply iqr_outliers_In in Hin as (p & Q1 & Q3 & _ & Hx & H1 & H3 & Hout).
    apply nth_error_dropna in Hx.
    destruct (quantile_range vals (1 # 4) Q1) as (l1 & h1 & Hl1 & Hh1 & R1);
      [unfold Qle; simpl; lia | exact H1 |].
    destruct (quantile_range vals (3 # 4) Q3) as (l3 & h3 & Hl3 & Hh3 & R3);
      [unfold Qle; simpl; lia | exact H3 |].
    pose proof (Hconst l1 x Hl1 Hx). pose proof (Hconst h1 x Hh1 Hx).
    pose proof (Hconst l3 x Hl3 Hx). pose proof (Hconst h3 x Hh3 Hx).
    destruct Hout; Lqa.lra.
Qed.

Lemma iqr_outliers_outside_quartiles_witness :
  iqr_outliers [0; 1; 2]%nat [Some 7; None; Some 7] = [].
Proof.
  apply (proj2 (iqr_outliers_outside_quartiles [0; 1; 2]%nat [Some 7; None; Some 7])).
  simpl. intros x y [<-|[<-|[]]] [<-|[<-|[]]]; reflexivity.
Defined.

(** ** The median among the quartiles *)

Lemma Qfloor_unique (q : Q) (z : Z) :
  inject_Z z <= q -> q < inject_Z (z + 1) -> Qfloor q = z.
Proof.
  intros H1 H2.
  assert (z <= Qfloor q)%Z.
  { rewrite <- (Qfloor_Z z). now apply Qfloor_resp_le. }
  assert (Qfloor q < z + 1)%Z.
  { rewrite Zlt_Qlt. apply Qle_lt_trans with q; [apply Qfloor_le | exact H2]. }
  lia.
Qed.

Lemma half_position (k j : nat) (r : Q) :
  Qofnat k * (1 # 2) == inject_Z (Z.of_nat j) + r -> 0 <= r < 1 ->
  Qfloor (Qofnat k * (1 # 2)) = Z.of_nat j /\
  Qofnat k * (1 # 2) - inject_Z (Qfloor (Qofnat k * (1 # 2))) == r.
Proof.
  intros E Hr.
  assert (F : Qfloor (Qofnat k * (1 # 2)) = Z.of_nat j).
  { apply Qfloor_unique; rewrite E; [|rewrite inject_Z_plus];
      change (inject_Z 1) with 1; Lqa.lra. }
  split; [exact F|]. rewrite F, E. ring.
Qed.

(** The median is the quantile of order 1/2. *)
Lemma median_quantile (vals : list (option Q)) (m : Q) :
  median vals = Some m ->
  exists q, quantile (1 # 2) vals = Some q /\ q == m.
Proof.
  unfold median, quantile.
  set (xs := sort Qle_bool (dropna vals)).
  destruct (List.length xs) as [|k] eqn:En; [discriminate|].
  replace (S k - 1)%nat with k by lia. cbv beta iota zeta.
  destruct (Nat.Even_or_Odd k) as [[j Ej]|[j Ej]].
  - assert (Hodd : Nat.odd (S k) = true).
    { rewrite Nat.odd_succ. apply Nat.even_spec. now exists j. }
    assert (Hdiv : (S k / 2 = j)%nat)
      by (symmetry; apply (Nat.div_unique (S k) 2 j 1); lia).
    rewrite Hodd, Hdiv. intros [= <-].
    destruct (half_position k j 0) as [F R]; [|Lqa.lra|].
    { unfold Qofnat. rewrite Ej, Nat2Z.inj_mul, inject_Z_mult. simpl (Z.of_nat 2).
      change (inject_Z 2) with 2. ring. }
    eexists. split; [reflexivity|].
    rewrite R, F, Nat2Z.id. ring.
  - assert (Hodd : Nat.odd (S k) = false).
    { rewrite Nat.odd_succ. destruct (Nat.even k) eqn:Ev; [|reflexivity].
      apply Nat.even_spec in Ev. destruct Ev as [i Ei]. lia. }
    assert (Hdiv : (S k / 2 = S j)%nat)
      by (symmetry; apply (Nat.div_unique (S k) 2 (S j) 0); lia).
    rewrite Hodd, Hdiv. intros [= <-].
    destruct (half_position k j (1 # 2)) as [F R]; [|Lqa.lra|].
    { unfold Qofnat. rewrite Ej, Nat2Z.inj_add, Nat2Z.inj_mul, inject_Z_plus,
        inject_Z_mult. simpl (Z.of_nat 2). simpl (Z.of_nat 1).
      change (inject_Z 2) with 2. change (inject_Z 1) with 1. ring. }
    eexists. split; [reflexivity|].
    rewrite R, F, Nat2Z.id.
    replace (Nat.min (j + 1) k) with (S j) by lia.
    rewrite Nat.sub_0_r.
    generalize (nth j xs 0) (nth (S j) xs 0). intros u v. field.
Qed.

(** X10. The median that fills the gaps of a numeric column lies
    between the first and the third quartile of that column, and so
    between its smallest and its largest value. *)
Theorem median_between_quartiles (vals : list (option Q)) (m : Q) :
  median vals = Some m ->
  exists Q1 Q3 lo hi,
    quantile (1 # 4) vals = Some Q1 /\ quantile (3 # 4) vals = Some Q3 /\
    In lo (dropna vals) /\ In hi (dropna vals) /\
    lo <= Q1 /\ Q1 <= m /\ m <= Q3 /\ Q3 <= hi.
Proof.
  intros Hm. destruct (median_quantile vals m Hm) as (q & Hq & Eq).
  assert (Hsome : forall p, exists v, quantile p vals = Some v).
  { intros p. unfold quantile in *.
    destruct (List.length (sort Qle_bool (dropna vals))); [discriminate|].
    eexists. reflexivity. }
  destruct (Hsome (1 # 4)) as [Q1 H1]. destruct (Hsome (3 # 4)) as [Q3 H3].
  destruct (quantile_range vals (1 # 4) Q1) as (lo & _ & Hlo & _ & [R1 _]);
    [unfold Qle; simpl; lia | exact H1 |].
  destruct (quantile_range vals (3 # 4) Q3) as (_ & hi & _ & Hhi & [_ R3]);
    [unfold Qle; simpl; lia | exact H3 |].
  exists Q1, Q3, lo, hi. repeat split; try assumption.
  - rewrite <- Eq. apply (quantile_mono vals (1 # 4) (1 # 2) Q1 q); try assumption;
      unfold Qle; simpl; lia.
  - rewrite <- Eq. apply (quantile_mono vals (1 # 2) (3 # 4) q Q3); try assumption;
      unfold Qle; simpl; lia.
Qed.

Lemma median_between_quartiles_witness :
  exists Q1 Q3 lo hi,
    quantile (1 # 4) [Some 3; None; Some 1; Some 2] = Some Q1 /\
    quantile (3 # 4) [Some 3; None; Some 1; Some 2] = Some Q3 /\
    In lo (dropna [Some 3; None; Some 1; Some 2]) /\
    In hi (dropna [Some 3; None; Some 1; Some 2]) /\
    lo <= Q1 /\ Q1 <= 2 /\ 2 <= Q3 /\ Q3 <= hi.
Proof.
  apply (median_between_quartiles [Some 3; None; Some 1; Some 2] 2).
  vm_compute. reflexivity.
Defined.

(** ** The outlier map, column by column *)

Lemma unique_label_column (l : list (str * column)) (k : str) (a b : column) :
  NoDup (List.map fst l) -> In (k, a) l -> In (k, b) l -> a = b.
Proof.
  induction l as [|[k0 c0] l IH]; simpl; [tauto|]. intros Hnd Ha Hb.
  inversion_clear Hnd as [|? ? Hk Hl].
  assert (Hout : forall c, In (k0, c) l -> False).
  { intros c Hc. apply Hk. apply in_map_iff. now exists (k0, c). }
  destruct Ha as [Ha|Ha], Hb as [Hb|Hb].
  - congruence.
  - injection Ha as -> ->. now apply Hout in Hb.
  - injection Hb as -> ->. now apply Hout in Ha.
  - now apply IH.
Qed.

Lemma numeric_columns_In (df : DataFrame) (col : str) :
  In col (numeric_columns df) <-> exists vals, In (col, Numeric vals) (data df).
Proof.
  unfold numeric_columns. rewrite in_map_iff. split.
  - intros ([k c] & E & H). apply filter_In in H as [H Hc]. simpl in *. subst k.
    destruct c as [vals|vals]; [now exists vals | discriminate].
  - intros (vals & H). exists (col, Numeric vals). split; [reflexivity|].
    apply filter_In. now split.
Qed.

(** X11. Under 'iqr' [detect_outliers] never raises.  On a frame with
    unique labels the outlier map has one entry per numeric column, in
    column order, holding the values of that column the IQR rule flags;
    a categorical column has no entry. *)
Theorem detect_outliers_iqr_entries (df : DataFrame) :
  NoDup (columns df) ->
  exists o,
    detect_outliers df (lit "iqr") = Ok o /\
    List.map fst o = numeric_columns df /\
    (forall col vals, In (col, Numeric vals) (data df) ->
                      In (col, iqr_outliers (index df) vals) o) /\
    (forall col vals, In (col, Object vals) (data df) -> ~ In col (List.map fst o)).
Proof.
  intros Hnd. eexists. split; [now apply detect_outliers_iqr|].
  split; [|split].
  - rewrite map_map. simpl. apply map_id.
  - intros col vals Hin. apply in_map_iff. exists col. split.
    + now rewrite (numeric_column_unique df col vals Hnd Hin).
    + apply numeric_columns_In. now exists vals.
  - intros col vals Hin. rewrite map_map. simpl. rewrite map_id.
    intros Hc. apply numeric_columns_In in Hc as (v & Hv).
    pose proof (unique_label_column (data df) col _ _ Hnd Hin Hv). discriminate.
Qed.

Lemma detect_outliers_iqr_entries_witness :
  exists o,
    detect_outliers Data.staff_frame (lit "iqr") = Ok o /\
    List.map fst o = numeric_columns Data.staff_frame /\
    (forall col vals, In (col, Numeric vals) (data Data.staff_frame) ->
                      In (col, iqr_outliers (index Data.staff_frame) vals) o) /\
    (forall col vals, In (col, Object vals) (data Data.staff_frame) ->
                      ~ In col (List.map fst o)).
Proof.
  apply detect_outliers_iqr_entries.
  vm_compute. repeat constructor; simpl; intuition discriminate.
Defined.

Lemma dropna_length {A} (vals : list (option A)) :
  (List.length (dropna vals) + isnull_sum vals = List.length vals)%nat.
Proof.
  unfold isnull_sum. induction vals as [|[x|] vals IH]; simpl; lia.
Qed.

Lemma zscore_mask_length (t : Q) (xs : list Q) :
  List.length (zscore_mask t xs) = List.length xs.
Proof.
  unfold zscore_mask. destruct (mean xs), (pvariance xs); apply length_map.
Qed.

(** Lines 73-74 return exactly when the column has no missing value;
    an entirely missing column raises IndexError, a partly missing one
    IndexingError. *)
Lemma zscore_outliers_missing (idx : list nat) (vals : list (option Q)) :
  (isnull_sum vals = 0%nat -> exists s, zscore_outliers idx vals = Ok s) /\
  (isnull_sum vals <> 0%nat ->
   zscore_outliers idx vals
   = Raise (match dropna vals with [] => IndexError | _ :: _ => IndexingError end)).
Proof.
  unfold zscore_outliers, series_getitem_mask. rewrite zscore_mask_length.
  pose proof (dropna_length vals) as H.
  pose proof (zscore_mask_length 3 (dropna vals)) as Hm.
  destruct (Nat.eqb_spec (List.length (dropna vals)) (List.length vals)) as [E|E].
  - split; [intros _; eexists; reflexivity | lia].
  - split; [lia|]. intros _.
    destruct (zscore_mask 3 (dropna vals)), (dropna vals); simpl in Hm;
      try discriminate; reflexivity.
Qed.

Lemma detect_column_zscore (df : DataFrame) (acc : dict series) (col : str) :
  detect_column df (lit "zscore") acc col
  = (s <- zscore_outliers (index df) (numeric_column df col) ;;
     Ok (dict_set col s acc)).
Proof. reflexivity. Qed.

(** The loop under 'zscore' stops at the first column with a missing
    value. *)
Lemma for_each_detect_zscore (df : DataFrame) (cols : list str) :
  forall acc,
    NoDup (List.map fst acc ++ cols) ->
    match find (fun col => negb (Nat.eqb (isnull_sum (numeric_column df col)) 0)) cols with
    | None =>
        exists o, for_each (detect_column df (lit "zscore")) cols acc = Ok (acc ++ o) /\
                  List.map fst o = cols
    | Some col =>
        for_each (detect_column df (lit "zscore")) cols acc
        = Raise (match dropna (numeric_column df col) with
                 | [] => IndexError
                 | _ :: _ => IndexingError
                 end)
    end.
Proof.
  induction cols as [|col cols IH]; intros acc Hnd.
  - exists []. simpl. now rewrite app_nil_r.
  - cbn [for_each find]. rewrite detect_column_zscore.
    destruct (zscore_outliers_missing (index df) (numeric_column df col)) as [Hgood Hbad].
    destruct (Nat.eqb_spec (isnull_sum (numeric_column df col)) 0) as [E0|E0];
      cbn [negb].
    + destruct (Hgood E0) as [s Es]. rewrite Es. cbn [bind].
      assert (Hfresh : ~ In col (List.map fst acc)).
      { apply NoDup_remove_2 in Hnd. intros H. apply Hnd. apply in_or_app. now left. }
      rewrite dict_set_fresh by exact Hfresh.
      specialize (IH (acc ++ [(col, s)])).
      rewrite map_app, <- app_assoc in IH. specialize (IH Hnd).
      destruct (find _ cols) as [c|]; [exact IH|].
      destruct IH as (o & Eo & Ho).
      exists ((col, s) :: o). rewrite Eo, <- app_assoc. split; [reflexivity|].
      simpl. now rewrite Ho.
    + now rewrite (Hbad E0).
Qed.

(** X12. Under 'zscore', on a frame with unique labels,
    [detect_outliers] returns a map with one entry per numeric column
    when no numeric column has a missing value.  Otherwise it raises at
    the first numeric column, in column order, that has one: IndexError
    when that column holds no value at all, pandas' IndexingError when
    it holds some. *)
Theorem detect_outliers_zscore_missing (df : DataFrame) :
  NoDup (columns df) ->
  ((forall col vals, In (col, Numeric vals) (data df) -> isnull_sum vals = 0%nat) ->
   exists o, detect_outliers df (lit "zscore") = Ok o /\
             List.map fst o = numeric_columns df) /\
  ((exists col vals, In (col, Numeric vals) (data df) /\ isnull_sum vals <> 0%nat) ->
   exists col, Spec.first_gap df = Some col) /\
  (forall col vals,
      Spec.first_gap df = Some col -> In (col, Numeric vals) (data df) ->
      isnull_sum vals <> 0%nat /\
      (dropna vals = [] -> detect_outliers df (lit "zscore") = Raise IndexError) /\
      (dropna vals <> [] -> detect_outliers df (lit "zscore") = Raise IndexingError)).
Proof.
  intros Hnd. unfold detect_outliers, Spec.first_gap.
  pose proof (for_each_detect_zscore df (numeric_columns df) []
                (numeric_columns_NoDup df Hnd)) as H.
  split; [|split].
  - intros Hall.
    destruct (find _ (numeric_columns df)) as [c|] eqn:Ef; [|exact H].
    apply find_some in Ef as [Hc Hgap].
    apply numeric_columns_In in Hc as (vals & Hin).
    rewrite (numeric_column_unique df c vals Hnd Hin), (Hall c vals Hin) in Hgap.
    discriminate.
  - intros (col & vals & Hin & Hmiss).
    destruct (find _ (numeric_columns df)) as [c|] eqn:Ef; [now exists c|].
    exfalso.
    assert (Hc : In col (numeric_columns df))
      by (apply numeric_columns_In; now exists vals).
    pose proof (find_none _ _ Ef col Hc) as Hf. cbv beta in Hf.
    rewrite (numeric_column_unique df col vals Hnd Hin) in Hf.
    apply negb_false_iff, Nat.eqb_eq in Hf. contradiction.
  - intros col vals Ef Hin. rewrite Ef in H.
    apply find_some in Ef as [_ Hgap].
    rewrite (numeric_column_unique df col vals Hnd Hin) in *.
    apply negb_true_iff, Nat.eqb_neq in Hgap.
    split; [exact Hgap|]. rewrite H.
    split; intros Hv; destruct (dropna vals); congruence.
Qed.

Lemma detect_outliers_zscore_missing_witness :
  (exists o, detect_outliers Data.outlier_frame (lit "zscore") = Ok o /\
             List.map fst o = numeric_columns Data.outlier_frame) /\
  detect_outliers
    {| index := [0; 1]%nat;
       data := [ (lit "a", Numeric [Some 1; Some 2]); (lit "x", Numeric [None; None]) ] |}
    (lit "zscore") = Raise IndexError /\
  detect_outliers
    {| index := [0; 1]%nat;
       data := [ (lit "a", Numeric [Some 1; Some 2]); (lit "x", Numeric [Some 1; None]) ] |}
    (lit "zscore") = Raise IndexingError.
Proof.
  split; [|split].
  - apply detect_outliers_zscore_missing.
    + vm_compute. repeat constructor; simpl; intuition discriminate.
    + intros col vals [H|[H|[]]]; injection H as _ <-; reflexivity.
  - apply (detect_outliers_zscore_missing
             {| index := [0; 1]%nat;
                data := [ (lit "a", Numeric [Some 1; Some 2]);
                          (lit "x", Numeric [None; None]) ] |})
      with (col := lit "x") (vals := [None; None]).
    + vm_compute. repeat constructor; simpl; intuition discriminate.
    + vm_compute. reflexivity.
    + right. now left.
    + reflexivity.
  - apply (detect_outliers_zscore_missing
             {| index := [0; 1]%nat;
                data := [ (lit "a", Numeric [Some 1; Some 2]);
                          (lit "x", Numeric [Some 1; None]) ] |})
      with (col := lit "x") (vals := [Some 1; None]).
    + vm_compute. repeat constructor; simpl; intuition discriminate.
    + vm_compute. reflexivity.
    + right. now left.
    + discriminate.
Defined.

Lemma dict_set_Forall {V} (P : V -> Prop) (k : str) (v : V) (d : dict V) :
  P v -> Forall (fun e => P (snd e)) d -> Forall (fun e => P (snd e)) (dict_set k v d).
Proof.
  intros Hv. induction 1 as [|[k' v'] d Hh Ht IH]; simpl.
  - repeat constructor. exact Hv.
  - destruct (str_eqb k' k); constructor; auto.
Qed.

(** A property of the series that the selected rule produces holds of
    every entry of the outlier map. *)
Lemma detect_outliers_values (P : series -> Prop) (df : DataFrame) (method : str) :
  (method = lit "iqr" ->
   forall col, P (iqr_outliers (index df) (numeric_column df col))) ->
  (method = lit "zscore" ->
   forall col s, zscore_outliers (index df) (numeric_column df col) = Ok s -> P s) ->
  forall o, detect_outliers df method = Ok o -> Forall (fun e => P (snd e)) o.
Proof.
  intros Hiqr Hz. unfold detect_outliers.
  assert (H : forall cols acc o,
             Forall (fun e => P (snd e)) acc ->
             for_each (detect_column df method) cols acc = Ok o ->
             Forall (fun e => P (snd e)) o).
  { induction cols as [|col cols IH]; intros acc o Hacc; simpl.
    - now intros [= <-].
    - unfold detect_column at 1.
      destruct (str_eqb method (lit "iqr")) eqn:Ei.
      + apply str_eqb_eq in Ei. simpl. apply IH. apply dict_set_Forall; auto.
      + destruct (str_eqb method (lit "zscore")) eqn:Ez.
        * apply str_eqb_eq in Ez.
          destruct (zscore_outliers (index df) (numeric_column df col)) as [s|e] eqn:Es;
            simpl; [|discriminate].
          apply IH. apply dict_set_Forall; [now apply (Hz Ez col) | exact Hacc].
        * simpl. now apply IH. }
  intros o. apply H. constructor.
Qed.

Lemma numeric_column_In (df : DataFrame) (col : str) :
  numeric_column df col = [] \/
  exists k, In (k, Numeric (numeric_column df col)) (data df).
Proof.
  unfold numeric_column, getitem.
  induction (data df) as [|[k c] l IH]; simpl; [now left|].
  destruct (str_eqb k col); simpl.
  - destruct c as [vals|vals]; [right; exists k; now left | now left].
  - destruct IH as [E|(k0 & H)]; [now left | right; exists k0; now right].
Qed.

Lemma numeric_column_length (df : DataFrame) (col : str) :
  Spec.well_formed df -> (List.length (numeric_column df col) <= len df)%nat.
Proof.
  intros Hwf. destruct (numeric_column_In df col) as [E|(k & H)].
  - rewrite E. simpl. lia.
  - unfold Spec.well_formed in Hwf. rewrite Forall_forall in Hwf.
    specialize (Hwf _ H). simpl in Hwf. lia.
Qed.

Lemma Qsum_squares_nonneg (m : Q) (xs : list Q) :
  0 <= Qsum (List.map (fun x => (x - m) * (x - m)) xs).
Proof.
  induction xs as [|x xs IH]; cbn [List.map Qsum fold_right]; [discriminate|].
  fold (Qsum (List.map (fun x => (x - m) * (x - m)) xs)).
  pose proof (Qsquare_nonneg (x - m)). Lqa.lra.
Qed.

Lemma pvariance_nonneg (xs : list Q) (v : Q) : pvariance xs = Some v -> 0 <= v.
Proof.
  unfold pvariance. destruct (mean xs) as [m|] eqn:Em; [|discriminate].
  intros [= <-].
  assert (Hlen : List.length xs <> 0%nat) by (destruct xs; [discriminate|simpl; lia]).
  apply Qle_shift_div_l; [now apply Qofnat_pos|].
  rewrite Qmult_0_l. apply Qsum_squares_nonneg.
Qed.

Lemma dropna_In {A} (vals : list (option A)) (x : A) :
  In (Some x) vals -> In x (dropna vals).
Proof.
  intros H. apply In_nth_error in H as [p Hp]. exact (nth_error_dropna vals p x Hp).
Qed.



(** ** Counts and percentages of the report *)

Lemma flagged_length (flag : Q -> bool) (idx : list nat) (vals : list (option Q)) :
  (List.length (flagged flag idx vals) <= List.length idx)%nat.
Proof.
  revert vals. induction idx as [|i idx IH]; intros [|[x|] vals]; simpl; try lia.
  - specialize (IH vals). destruct (flag x); simpl; lia.
  - specialize (IH vals). lia.
Qed.

(** No series of the outlier map is longer than the frame. *)
Lemma detect_outliers_counts (df : DataFrame) (method : str) (o : dict series) :
  detect_outliers df method = Ok o ->
  Forall (fun e => (List.length (snd e) <= len df)%nat) o.
Proof.
  apply (detect_outliers_values (fun s => (List.length s <= len df)%nat)).
  - intros _ col. unfold iqr_outliers.
    destruct (quantile (1 # 4) (numeric_column df col)),
      (quantile (3 # 4) (numeric_column df col)); simpl; try lia.
    apply flagged_length.
  - intros _ col s. unfold zscore_outliers, series_getitem_mask.
    destruct (Nat.eqb _ _);
      [|destruct (zscore_mask 3 (dropna (numeric_column df col))); discriminate].
    intros [= <-].
    pose proof (flagged_length (fun _ => true)
                  (select (zscore_mask 3 (dropna (numeric_column df col))) (index df))
                  (select (zscore_mask 3 (dropna (numeric_column df col)))
                     (numeric_column df col))).
    pose proof (select_length_le (zscore_mask 3 (dropna (numeric_column df col)))
                  (index df)).
    unfold len. lia.
Qed.

Lemma percentage_range (c n : nat) :
  n <> 0%nat -> (c <= n)%nat -> 0 <= Qofnat c / Qofnat n * 100 <= 100.
Proof.
  intros Hn Hc. pose proof (Qofnat_pos n Hn) as Hpos.
  pose proof (Qofnat_nonneg c) as H0. pose proof (Qofnat_le c n Hc) as Hle.
  assert (H1 : 0 <= Qofnat c / Qofnat n).
  { apply Qle_shift_div_l; [exact Hpos | Lqa.lra]. }
  assert (H2 : Qofnat c / Qofnat n <= 1).
  { apply Qle_shift_div_r; [exact Hpos | Lqa.lra]. }
  split; Lqa.lra.
Qed.

Lemma for_each_summarize_bounded (df : DataFrame) (items : list (str * series)) :
  Forall (fun e => (List.length (snd e) <= len df)%nat) items ->
  forall acc s,
    Forall (fun e => (count (snd e) <= len df)%nat /\ 0 <= percentage (snd e) <= 100) acc ->
    for_each (summarize df) items acc = Ok s ->
    Forall (fun e => (count (snd e) <= len df)%nat /\ 0 <= percentage (snd e) <= 100) s.
Proof.
  induction 1 as [|[k o] items Ho _ IH]; intros acc s Hacc; simpl.
  - now intros [= <-].
  - unfold truediv. destruct (len df) as [|n] eqn:En; [discriminate|].
    cbn [bind]. apply IH.
    apply (dict_set_Forall
             (fun e => (count e <= S n)%nat /\ 0 <= percentage e <= 100));
      [|exact Hacc].
    simpl in *. split; [exact Ho|]. now apply percentage_range.
Qed.

(** X14. In a report built from the outlier map of the same frame,
    every count is at most the number of rows and every percentage
    lies between 0 and 100. *)
Theorem report_percentages (df : DataFrame) (method : str) (o : dict series)
    (r : report) :
  detect_outliers df method = Ok o ->
  generate_eda_report df o = Ok r ->
  Forall (fun e => (count (snd e) <= len df)%nat /\ 0 <= percentage (snd e) <= 100)
    (report_outlier_summary r).
Proof.
  intros Hd Hr. apply detect_outliers_counts in Hd.
  unfold generate_eda_report, outlier_summary in Hr.
  destruct (for_each (summarize df) o []) as [s|e] eqn:Es; [|discriminate].
  simpl in Hr. injection Hr as <-. simpl.
  apply (for_each_summarize_bounded df o Hd [] s); [constructor | exact Es].
Qed.

Lemma report_percentages_witness :
  exists r,
    generate_eda_report Data.outlier_frame
      [ (lit "Normal_Values", []); (lit "With_Outliers", [(9%nat, 100)]) ] = Ok r /\
    Forall (fun e => (count (snd e) <= len Data.outlier_frame)%nat /\
                     0 <= percentage (snd e) <= 100)
      (report_outlier_summary r).
Proof.
  eexists. split; [vm_compute; reflexivity|].
  apply (report_percentages Data.outlier_frame (lit "iqr")
           [ (lit "Normal_Values", []); (lit "With_Outliers", [(9%nat, 100)]) ]).
  - vm_compute. reflexivity.
  - vm_compute. reflexivity.
Defined.

Lemma isnull_sum_dict_unique (df : DataFrame) :
  NoDup (columns df) ->
  isnull_sum_dict df
  = List.map (fun nc => (fst nc, missing_count (snd nc))) (data df).
Proof.
  unfold isnull_sum_dict, columns.
  assert (H : forall l acc,
             NoDup (List.map fst acc ++ List.map fst l) ->
             fold_left (fun d (nc : str * column) =>
                          dict_set (fst nc) (missing_count (snd nc)) d) l acc
             = acc ++ List.map (fun nc => (fst nc, missing_count (snd nc))) l).
  { induction l as [|[k c] l IH]; intros acc Hnd; simpl.
    - now rewrite app_nil_r.
    - simpl in Hnd. rewrite dict_set_fresh.
      2:{ apply NoDup_remove_2 in Hnd. intros Hin. apply Hnd.
          apply in_or_app. now left. }
      rewrite IH; [now rewrite <- app_assoc|].
      rewrite map_app, <- app_assoc. exact Hnd. }
  intros Hnd. exact (H (data df) [] Hnd).
Qed.

(** X15. In the report of a cleaned frame the missing-value count of a
    column is 0, unless the column is numeric without any value, in
    which case it is the number of rows. *)
Theorem cleaned_report_missing_values (df df1 : DataFrame) (o : dict series)
    (r : report) :
  Spec.well_formed df -> clean_data df = Ok df1 ->
  generate_eda_report df1 o = Ok r ->
  List.map fst (missing_values r) = columns df1 /\
  forall col k, In (col, k) (missing_values r) ->
                k = 0%nat \/
                (k = len df1 /\
                 exists vals, In (col, Numeric vals) (data df1) /\ dropna vals = []).
Proof.
  intros Hwf Hc Hr.
  pose proof (clean_data_result_labels df df1 Hc) as (_ & Hnd & _).
  pose proof (clean_data_shape df df1 Hwf Hc) as (Hwf1 & _ & _ & Hset).
  unfold generate_eda_report in Hr.
  destruct (outlier_summary df1 o) as [s|e]; [|discriminate].
  simpl in Hr. injection Hr as <-. simpl.
  rewrite (isnull_sum_dict_unique df1 Hnd). split.
  - rewrite map_map. reflexivity.
  - intros col k Hin. apply in_map_iff in Hin as ([k0 c] & E & Hin).
    simpl in E. injection E as -> <-.
    unfold Spec.all_settled, Spec.well_formed in *. rewrite Forall_forall in *.
    specialize (Hset _ Hin). specialize (Hwf1 _ Hin). simpl in *.
    destruct c as [vals|vals]; simpl in *; [|now left].
    destruct Hset as [H0|Hall]; [now left|]. right. split.
    + pose proof (dropna_length vals) as Hl. rewrite Hall in Hl. simpl in Hl. lia.
    + now exists vals.
Qed.

Lemma cleaned_report_missing_values_witness :
  exists df1 r,
    clean_data Data.staff_frame = Ok df1 /\
    generate_eda_report df1 [] = Ok r /\
    List.map fst (missing_values r) = columns df1 /\
    forall col k, In (col, k) (missing_values r) ->
                  k = 0%nat \/
                  (k = len df1 /\
                   exists vals, In (col, Numeric vals) (data df1) /\ dropna vals = []).
Proof.
  eexists. eexists.
  split; [vm_compute; reflexivity|].
  split; [vm_compute; reflexivity|].
  apply (cleaned_report_missing_values Data.staff_frame _ []).
  - repeat constructor.
  - vm_compute. reflexivity.
  - vm_compute. reflexivity.
Defined.

(** ** The upload route *)

(** X1. [allowed_file] never raises, and accepts exactly the names
    that end with a dot followed by csv in any mix of upper and lower
    case. *)
Theorem allowed_file_csv (name : str) :
  exists b, allowed_file name = Ok b /\
            (b = true <-> exists stem ext, name = stem ++ 46%N :: ext /\ Spec.is_csv ext).
Proof. exact (allowed_file_spec name). Qed.

Lemma detect_outliers_iqr_total (df : DataFrame) :
  exists o, detect_outliers df (lit "iqr") = Ok o.
Proof.
  unfold detect_outliers. generalize (@nil (str * series)).
  induction (numeric_columns df) as [|col cols IH]; intros acc; simpl.
  - now exists acc.
  - unfold detect_column at 1. simpl. apply IH.
Qed.

Lemma outlier_summary_total (df : DataFrame) (o : dict series) :
  len df <> 0%nat -> exists s, outlier_summary df o = Ok s.
Proof.
  intros Hn. unfold outlier_summary. generalize (@nil (str * summary)).
  induction o as [|[k v] o IH]; intros acc; simpl.
  - now exists acc.
  - unfold truediv. destruct (len df); [congruence|]. simpl. apply IH.
Qed.

Lemma clean_columns_empty (df : DataFrame) : empty (clean_columns df) = empty df.
Proof.
  unfold empty, clean_columns; simpl.
  destruct (index df); [reflexivity|]. now destruct (data df).
Qed.

(** What lines 243-249 do with a frame that is not empty. *)
Lemma analyze_frame_spec (df : DataFrame) :
  empty df = false ->
  (NoDup (List.map clean_name (columns df)) ->
   exists a, analyze_frame df = Ok a /\
             df_clean a = Spec.impute (drop_duplicates (clean_columns df)) /\
             (1 <= len (df_clean a))%nat /\
             hd_error (index (df_clean a)) = hd_error (index df)) /\
  (~ NoDup (List.map clean_name (columns df)) ->
   analyze_frame df = Raise AttributeError \/ analyze_frame df = Raise ValueError).
Proof.
  intros He. unfold analyze_frame. split.
  - intros Hnd.
    assert (Hc : clean_data df = Ok (Spec.impute (drop_duplicates (clean_columns df)))).
    { unfold clean_data. apply handle_missing_impute.
      now rewrite drop_duplicates_columns, clean_columns_columns. }
    rewrite Hc. cbn [bind].
    set (d := Spec.impute (drop_duplicates (clean_columns df))).
    destruct (drop_duplicates_first (clean_columns df)) as [Hhd Hlen];
      [now rewrite clean_columns_empty|].
    assert (Hd : (1 <= len d)%nat) by exact Hlen.
    destruct (detect_outliers_iqr_total d) as [o Ho].
    unfold detect_outliers_default. rewrite Ho. cbn [bind].
    destruct (outlier_summary_total d o) as [s Hs]; [lia|].
    unfold generate_eda_report. rewrite Hs. cbn [bind].
    eexists. split; [reflexivity|]. simpl. repeat split; assumption.
  - intros Hdup.
    destruct (handle_missing_repeated (drop_duplicates (clean_columns df))) as [E|E].
    + now rewrite drop_duplicates_columns, clean_columns_columns.
    + left. unfold clean_data. now rewrite E.
    + right. unfold clean_data. now rewrite E.
Qed.

(** X16. On a frame that is not empty the analysis of lines 243-249
    succeeds when the canonical labels are distinct: the cleaned frame
    keeps the first row, so the division of the outlier summary is
    defined.  When two labels collide it raises AttributeError or
    ValueError; it raises no other exception. *)
Theorem analyze_frame_outcome (df : DataFrame) :
  empty df = false ->
  (NoDup (List.map clean_name (columns df)) ->
   exists a, analyze_frame df = Ok a /\
             df_clean a = Spec.impute (drop_duplicates (clean_columns df)) /\
             (1 <= len (df_clean a))%nat /\
             hd_error (index (df_clean a)) = hd_error (index df)) /\
  (~ NoDup (List.map clean_name (columns df)) ->
   analyze_frame df = Raise AttributeError \/ analyze_frame df = Raise ValueError).
Proof. exact (analyze_frame_spec df). Qed.

Lemma analyze_frame_outcome_witness :
  (exists a, analyze_frame Data.staff_frame = Ok a /\
             df_clean a = Spec.impute (drop_duplicates (clean_columns Data.staff_frame)) /\
             (1 <= len (df_clean a))%nat /\
             hd_error (index (df_clean a)) = hd_error (index Data.staff_frame)) /\
  (analyze_frame Data.colliding_frame = Raise AttributeError \/
   analyze_frame Data.colliding_frame = Raise ValueError).
Proof.
  split.
  - apply (analyze_frame_outcome Data.staff_frame); [reflexivity|].
    vm_compute. repeat constructor; simpl; intuition discriminate.
  - apply (analyze_frame_outcome Data.colliding_frame); [reflexivity|].
    vm_compute. intros H. inversion H as [|x l Hx _]. apply Hx. now left.
Defined.

(** X17. [analyze] goes on to the plots only for an upload whose name
    ends in .csv (in any case), whose size is at most 52428800 bytes,
    which the parser accepts and whose frame is not empty, and then the
    values it carries are those of the analysis.  It flashes the
    message of an analysis error only when two labels of the uploaded
    frame share a canonical label, and the exception is then
    AttributeError or ValueError. *)
Theorem analyze_outcome (files : option upload) :
  (forall a, analyze files = Analysed a ->
             exists file df,
               files = Some file /\
               (exists stem ext, filename file = stem ++ 46%N :: ext /\ Spec.is_csv ext) /\
               (file_size file <= 52428800)%N /\
               read_csv file = Some df /\ empty df = false /\
               analyze_frame df = Ok a) /\
  (forall e, analyze files = Redirect (AnalysisError e) ->
             (e = AttributeError \/ e = ValueError) /\
             exists file df,
               files = Some file /\ read_csv file = Some df /\
               ~ NoDup (List.map clean_name (columns df))).
Proof.
  unfold analyze. destruct files as [file|]; [|split; intros ? H; discriminate H].
  destruct (str_eqb (filename file) []); [split; intros ? H; discriminate H|].
  destruct (allowed_file_spec (filename file)) as (b & -> & Hb).
  destruct b; [|split; intros ? H; discriminate H].
  destruct (N.ltb_spec MAX_FILE_SIZE (file_size file)) as [Hbig|Hsize];
    [split; intros ? H; discriminate H|].
  destruct (read_csv file) as [df|] eqn:Er; [|split; intros ? H; discriminate H].
  destruct (empty df) eqn:He; [split; intros ? H; discriminate H|].
  destruct (analyze_frame_spec df He) as [Hok Hbad].
  destruct (ListDec.NoDup_dec str_eq_dec (List.map clean_name (columns df)))
    as [Hnd|Hdup].
  - destruct (Hok Hnd) as (a0 & Ea & _). rewrite Ea. split.
    + intros a [= <-]. exists file, df. repeat split; try assumption.
      now apply Hb.
    + intros e H. discriminate H.
  - split.
    + destruct (Hbad Hdup) as [E|E]; rewrite E; intros a H; discriminate H.
    + destruct (Hbad Hdup) as [E|E]; rewrite E; intros e [= <-];
        (split; [tauto|]); exists file, df; repeat split; assumption.
Qed.

Lemma analyze_outcome_witness :
  (exists a,
      analyze (Some {| filename := lit "staff.CSV"; file_size := 1024;
                       read_csv := Some Data.staff_frame |}) = Analysed a /\
      exists file df,
        Some {| filename := lit "staff.CSV"; file_size := 1024;
                read_csv := Some Data.staff_frame |} = Some file /\
        (exists stem ext, filename file = stem ++ 46%N :: ext /\ Spec.is_csv ext) /\
        (file_size file <= 52428800)%N /\
        read_csv file = Some df /\ empty df = false /\
        analyze_frame df = Ok a) /\
  (AttributeError = AttributeError \/ AttributeError = ValueError).
Proof.
  split.
  - eexists. split; [vm_compute; reflexivity|].
    apply (proj1 (analyze_outcome
                    (Some {| filename := lit "staff.CSV"; file_size := 1024;
                             read_csv := Some Data.staff_frame |}))).
    vm_compute. reflexivity.
  - apply (proj2 (analyze_outcome
                    (Some {| filename := lit "ab.csv"; file_size := 10;
                             read_csv := Some Data.colliding_frame |}))
             AttributeError).
    vm_compute. reflexivity.
Defined.

(** ** Shape and reporting of flagged rows *)

(** X18. A cleaned frame is rectangular when the input is, has no more
    rows and as many columns, and has no gap left except in numeric
    columns without any value. *)
Theorem clean_data_keeps_shape (df df1 : DataFrame) :
  Spec.well_formed df -> clean_data df = Ok df1 ->
  Spec.well_formed df1 /\
  (len df1 <= len df)%nat /\
  List.length (data df1) = List.length (data df) /\
  Spec.all_settled df1.
Proof. exact (clean_data_shape df df1). Qed.

Lemma clean_data_keeps_shape_witness :
  Spec.well_formed (Spec.impute (drop_duplicates (clean_columns Data.staff_frame))) /\
  (len (Spec.impute (drop_duplicates (clean_columns Data.staff_frame)))
   <= len Data.staff_frame)%nat /\
  List.length (data (Spec.impute (drop_duplicates (clean_columns Data.staff_frame))))
  = List.length (data Data.staff_frame) /\
  Spec.all_settled (Spec.impute (drop_duplicates (clean_columns Data.staff_frame))).
Proof.
  apply (clean_data_keeps_shape Data.staff_frame).
  - repeat constructor.
  - vm_compute. reflexivity.
Defined.
